(** * Declarative controller runtime: a shallow embedding

    The development follows the Go packages of the repository:
    - [Reporter]   pkg/controller/status_reporter.go
    - [Cache]      pkg/cache/fake_cache.go
    - [Pipeline]   pkg/pipeline/expression.go
    - [Controller] pkg/controller/controller.go

    Go slices are lists, [int] lengths are [nat], Go strings are lists of
    bytes ([string] of the standard library, one [ascii] per byte), a nil
    pointer or nil interface is [None]. *)

From Stdlib Require Floats.
From Stdlib Require Import String Ascii.
From Stdlib Require Import List Arith ZArith Lia Bool.
Import ListNotations.

Set Implicit Arguments.
Set Warnings "-register-all".

(** ** Shared list helpers *)

(** The last [n] elements of a list: the Go slice [l[len(l)-n:]]. *)
Definition lastn {A : Type} (n : nat) (l : list A) : list A :=
  skipn (length l - n) l.

(** * pkg/controller/status_reporter.go *)
Module Reporter.

(** ErrorReporterStackSize controls the depth of the LIFO error buffer. *)
Definition ErrorReporterStackSize : nat := 10.

(** TrimPrefixSuffixLen controls the number of characters to retain at the
    prefix and the suffix of long strings. *)
Definition TrimPrefixSuffixLen : nat := 120.

Section ErrorStack.

(** Go's [error] values. *)
Variable error : Type.

(** [rate.Sometimes{First: 3, Interval: 2s}]: [Do f] runs [f] on the first
    three calls and afterwards when the interval has passed since [f] last
    ran.  The wall clock is outside the model: [intervalPassed n] says
    whether it has passed at call number [n]. *)
Variable intervalPassed : nat -> bool.

Definition First : nat := 3.

(** errorReporter is the error stack implementation.  [ratelimiter] is the
    call counter of the limiter; [errorChan] is [None] for a nil channel
    and otherwise the messages sent so far, oldest first. *)
Record errorReporter : Type := mkReporter {
  errorStack : list error;
  ratelimiter : nat;
  errorChan : option (list error);
  critical : bool
}.

Definition NewErrorReporter (ch : option (list error)) : errorReporter :=
  mkReporter [] 0 ch false.

(** The deferred [s.ratelimiter.Do(func() { ... s.errorChan <- err })]. *)
Definition notify (err : error) (s : errorReporter) : errorReporter :=
  let fire := Nat.ltb (ratelimiter s) First || intervalPassed (ratelimiter s) in
  mkReporter (errorStack s) (S (ratelimiter s))
    (if fire
     then match errorChan s with
          | Some sent => Some (sent ++ [err])
          | None => None
          end
     else errorChan s)
    (critical s).

(** [Push]: on a full stack [copy(s.errorStack, s.errorStack[1:])] shifts
    every entry one place down and the last slot receives [err]; otherwise
    [err] is appended.  The deferred notification runs last.  Returns the
    new reporter and [err]. *)
Definition Push (s : errorReporter) (err : error) (crit : bool)
  : errorReporter * error :=
  let stack' :=
    if Nat.eqb (length (errorStack s)) ErrorReporterStackSize
    then tl (errorStack s) ++ [err]
    else errorStack s ++ [err] in
  (notify err (mkReporter stack' (ratelimiter s) (errorChan s) (critical s)),
   err).

Definition PushError (s : errorReporter) (err : error)
  : errorReporter * error :=
  Push s err false.

Definition PushCriticalError (s : errorReporter) (err : error)
  : errorReporter * error :=
  Push (mkReporter (errorStack s) (ratelimiter s) (errorChan s) true) err true.

Definition IsEmpty (s : errorReporter) : bool :=
  Nat.eqb (length (errorStack s)) 0.

Definition Pop (s : errorReporter) : errorReporter :=
  if IsEmpty s then s
  else mkReporter (removelast (errorStack s)) (ratelimiter s) (errorChan s)
         (critical s).

(** [Top] returns nil ([None]) on an empty stack. *)
Definition Top (s : errorReporter) : option error :=
  if IsEmpty s then None
  else nth_error (errorStack s) (length (errorStack s) - 1).

Definition Size (s : errorReporter) : nat := length (errorStack s).

Definition IsCritical (s : errorReporter) : bool := critical s.

(** The operations a client can apply to a reporter. *)
Inductive op : Type :=
| OpPush (err : error) (crit : bool)
| OpPushError (err : error)
| OpPushCriticalError (err : error)
| OpPop.

Definition step (s : errorReporter) (o : op) : errorReporter :=
  match o with
  | OpPush e c => fst (Push s e c)
  | OpPushError e => fst (PushError s e)
  | OpPushCriticalError e => fst (PushCriticalError s e)
  | OpPop => Pop s
  end.

Definition run (ops : list op) (s : errorReporter) : errorReporter :=
  fold_left step ops s.



End ErrorStack.

Arguments OpPop {error}.

(** [trim]: Go's [len] and slicing count bytes. *)
Definition trim (s : string) : string :=
  if Nat.leb (String.length s) (2 * TrimPrefixSuffixLen + 5) then s
  else
    (substring 0 (TrimPrefixSuffixLen - 1) s
     ++ "[...]"
     ++ substring (String.length s - TrimPrefixSuffixLen) TrimPrefixSuffixLen s)%string.

(** [Report] lists the trimmed messages, oldest first; [msg] is the
    [Error()] method. *)
Definition Report {error : Type} (msg : error -> string)
  (s : errorReporter error) : list string :=
  map (fun e => trim (msg e)) (errorStack s).

(** ** Vocabulary of the properties *)

Fixpoint repeatChar (c : ascii) (n : nat) : string :=
  match n with
  | O => EmptyString
  | S n => String c (repeatChar c n)
  end.

(** A message of 246 bytes: 119 times [a], one [b], 6 times [c] and 120
    times [d]. *)
Definition longMessage : string :=
  (repeatChar "a" 119 ++ "b" ++ repeatChar "c" 6 ++ repeatChar "d" 120)%string.

(** The abbreviation as the specification words it, and as the
    documentation of [TrimPrefixSuffixLen] describes it: that many bytes at
    the prefix and at the suffix, around the marker. *)
Definition documentedTrim (s : string) : string :=
  (substring 0 TrimPrefixSuffixLen s ++ "[...]"
   ++ substring (String.length s - TrimPrefixSuffixLen) TrimPrefixSuffixLen s)%string.

(** [String] joins the report with commas. *)
Definition ReportString {error : Type} (msg : error -> string)
  (s : errorReporter error) : string :=
  String.concat "," (Report msg s).

(** The error an operation pushes, if it is a push. *)
Definition pushedError {error : Type} (o : op error) : option error :=
  match o with
  | OpPush e _ | OpPushError e | OpPushCriticalError e => Some e
  | OpPop => None
  end.

(** The errors a sequence of operations pushes, oldest first. *)
Fixpoint pushed {error : Type} (ops : list (op error)) : list error :=
  match ops with
  | [] => []
  | o :: rest =>
      match pushedError o with
      | Some e => e :: pushed rest
      | None => pushed rest
      end
  end.

Definition isCriticalPush {error : Type} (o : op error) : bool :=
  match o with
  | OpPushCriticalError _ => true
  | _ => false
  end.

(** The errors among [es] the limiter lets through, when [k] calls were
    made before: the calls numbered below [First] and those at which the
    interval has passed. *)
Fixpoint letThrough {error : Type} (intervalPassed : nat -> bool) (k : nat)
  (es : list error) : list error :=
  match es with
  | [] => []
  | e :: rest =>
      if Nat.ltb k First || intervalPassed k
      then e :: letThrough intervalPassed (S k) rest
      else letThrough intervalPassed (S k) rest
  end.





End Reporter.

(** * pkg/cache/fake_cache.go *)
Module Cache.

(** [types.NamespacedName], the key of [client.ObjectKey]. *)
Record ObjectKey : Type := mkKey {
  Namespace : string;
  Name : string
}.

(** [key.String()] renders [namespace/name]. *)
Definition KeyString (k : ObjectKey) : string :=
  (Namespace k ++ "/" ++ Name k)%string.

Record GroupVersionKind : Type := mkGVK {
  Group : string;
  Version : string;
  Kind : string
}.

(** [apierrors.NewNotFound(schema.GroupResource{Group, Resource}, name)],
    and any other error the cache was configured with. *)
Inductive error : Type :=
| NotFound (group resource name : string)
| Configured (msg : string).

Definition IsNotFound (e : error) : bool :=
  match e with
  | NotFound _ _ _ => true
  | Configured _ => false
  end.

Section FakeRuntimeCache.

(** [object.Object], an unstructured document with its accessors.  The
    object package is outside this file: [DeepCopy] is its copy function
    and [DeepCopyInto c obj] overwrites [obj] with [DeepCopy c]. *)
Variable Object : Type.
Variable GVKOf : Object -> GroupVersionKind.
Variable KeyOf : Object -> ObjectKey.
Variable DeepCopy : Object -> Object.

(** FakeRuntimeCache is a fake implementation of Informers.  Client can
    store only a single object.  The informer table keeps the kinds an
    informer was created for. *)
Record FakeRuntimeCache : Type := mkCache {
  InformersByGVK : list GroupVersionKind;
  Error : option error;
  Synced : option bool;
  Store : option Object
}.

Definition NewFakeRuntimeCache : FakeRuntimeCache :=
  mkCache [] None None None.

Definition WaitForCacheSync (c : FakeRuntimeCache) : bool :=
  match Synced c with
  | None => true
  | Some b => b
  end.

Definition Start (c : FakeRuntimeCache) : option error := Error c.

(** [Get] returns the new content of [obj] and the error.  The lookup
    [key] only enters the message of the NotFound error. *)
Definition Get (c : FakeRuntimeCache) (key : ObjectKey) (obj : Object)
  : Object * option error :=
  match Store c with
  | Some stored => (DeepCopy stored, None)
  | None =>
      (obj, Some (NotFound (Group (GVKOf obj)) (Kind (GVKOf obj))
                    (KeyString key)))
  end.

(** [List] appends a copy of the stored object to the items of [list]. *)
Definition List (c : FakeRuntimeCache) (items : list Object)
  : list Object * option error :=
  match Store c with
  | Some stored => (items ++ [DeepCopy stored], None)
  | None => (items, None)
  end.

Definition Upsert (c : FakeRuntimeCache) (obj : Object)
  : FakeRuntimeCache * option error :=
  (mkCache (InformersByGVK c) (Error c) (Synced c) (Some (DeepCopy obj)),
   None).

Definition Delete (c : FakeRuntimeCache) (_ : Object)
  : FakeRuntimeCache * option error :=
  (mkCache (InformersByGVK c) (Error c) (Synced c) None, None).

End FakeRuntimeCache.

(** ** Vocabulary of the properties *)

(** The writes a test applies to the fake cache. *)
Inductive storeOp (Object : Type) : Type :=
| StoreUpsert (obj : Object)
| StoreDelete (obj : Object).

Definition applyOp {Object : Type} (DeepCopy : Object -> Object)
  (c : FakeRuntimeCache Object) (o : storeOp Object)
  : FakeRuntimeCache Object :=
  match o with
  | StoreUpsert obj => fst (Upsert DeepCopy c obj)
  | StoreDelete obj => fst (Delete c obj)
  end.

Definition applyOps {Object : Type} (DeepCopy : Object -> Object)
  (ops : list (storeOp Object)) (c : FakeRuntimeCache Object)
  : FakeRuntimeCache Object :=
  fold_left (applyOp DeepCopy) ops c.

End Cache.

(** * pkg/pipeline/expression.go *)
Module Pipeline.

Import Stdlib.Floats.Floats.

Local Open Scope string_scope.
Local Open Scope list_scope.

(** ** Data model *)

(** The dynamic values an [Expression] stores in its [Literal] field
    ([any]): nil, the four scalars, a list of expressions and a map from
    strings to expressions.  A Go map is a list of bindings with distinct
    keys. *)
Inductive Lit (E : Type) : Type :=
| LNil
| LBool (b : bool)
| LInt (i : Z)
| LFloat (f : float)
| LString (s : string)
| LExprs (es : list E)
| LMap (m : list (string * E)).

Arguments LNil {E}.
Arguments LBool {E} b.
Arguments LInt {E} i.
Arguments LFloat {E} f.
Arguments LString {E} s.

(** [type Expression struct { Op string; Arg *Expression; Literal any }] *)
Inductive Expression : Type :=
  mkExpression (Op : string) (Arg : option Expression)
    (Literal : Lit Expression).

Definition Op (e : Expression) : string :=
  match e with mkExpression op _ _ => op end.
Definition Arg (e : Expression) : option Expression :=
  match e with mkExpression _ arg _ => arg end.
Definition Literal (e : Expression) : Lit Expression :=
  match e with mkExpression _ _ lit => lit end.

(** The documents evaluation produces: nil, bool, int64, float64, string,
    [[]any] and [Unstructured = map[string]any]. *)
Inductive Value : Type :=
| VNil
| VBool (b : bool)
| VInt (i : Z)
| VFloat (f : float)
| VString (s : string)
| VList (l : list Value)
| VMap (m : list (string * Value)).

Definition Unstructured : Type := list (string * Value).

(** What a coercion helper receives: an evaluated document, or a literal
    that holds expressions. *)
Inductive any : Type :=
| AVal (v : Value)
| AExprs (es : list Expression)
| AExprMap (m : list (string * Expression)).

Definition litAny (l : Lit Expression) : any :=
  match l with
  | LNil => AVal VNil
  | LBool b => AVal (VBool b)
  | LInt i => AVal (VInt i)
  | LFloat f => AVal (VFloat f)
  | LString s => AVal (VString s)
  | LExprs es => AExprs es
  | LMap m => AExprMap m
  end.

(** [type evalCtx struct { object, subject any; log logr.Logger }]; the
    logger only prints and is left out. *)
Record evalCtx : Type := mkCtx {
  object : Value;
  subject : Value
}.

(** A parsed JSON document.  A number token is either written as an
    integer ([JInt], any size) or with a fraction or an exponent ([JFrac],
    given by the float64 that [strconv.ParseFloat] reads from it, infinite
    when the token is out of range). *)
Inductive json : Type :=
| JNull
| JBool (b : bool)
| JInt (z : Z)
| JFrac (f : float)
| JString (s : string)
| JArray (l : list json)
| JObject (m : list (string * json)).

(** Errors: [NewInvalidArgumentsError], [NewExpressionError(e, err)],
    [NewUnmarshalError(kind, content)], [errors.New]/[fmt.Errorf] without
    and with a wrapped cause, and the errors of the json package. *)
Inductive error : Type :=
| ErrInvalidArguments (msg : string)
| ErrExpression (e : Expression) (cause : error)
| ErrUnmarshal (kind : string) (content : json)
| ErrNew (msg : string)
| ErrWrap (msg : string) (cause : error)
| ErrJSON (msg : string).

(** The outcome of a call: a value, a returned error, a run-time panic
    (index out of range), or [OutOfFuel] when the recursion bound of the
    model is too small. *)
Inductive result (A : Type) : Type :=
| Ok (a : A)
| Err (e : error)
| Panic (msg : string)
| OutOfFuel.

Arguments Ok {A} a.
Arguments Err {A} e.
Arguments Panic {A} msg.
Arguments OutOfFuel {A}.

Definition bind {A B : Type} (m : result A) (k : A -> result B) : result B :=
  match m with
  | Ok a => k a
  | Err e => Err e
  | Panic msg => Panic msg
  | OutOfFuel => OutOfFuel
  end.

Notation "x <- m ;; k" := (bind m (fun x => k))
  (at level 61, m at next level, right associativity).

(** [if err != nil { return nil, NewExpressionError(e, err) }] *)
Definition orExpressionError {A : Type} (e : Expression) (m : result A)
  : result A :=
  match m with
  | Err cause => Err (ErrExpression e cause)
  | other => other
  end.

(** [if err != nil { return nil, NewExpressionError(e, fmt.Errorf(msg, err)) }] *)
Definition orWrapped {A : Type} (e : Expression) (msg : string)
  (m : result A) : result A :=
  match m with
  | Err cause => Err (ErrExpression e (ErrWrap msg cause))
  | other => other
  end.

(** [if err != nil { return nil, errors.New(msg) }] *)
Definition orNew {A : Type} (msg : string) (m : result A) : result A :=
  match m with
  | Err _ => Err (ErrNew msg)
  | other => other
  end.

(** ** int64 and float64 *)

Definition wrap64 (z : Z) : Z :=
  ((z + 2 ^ 63) mod 2 ^ 64 - 2 ^ 63)%Z.

Definition inInt64 (z : Z) : bool :=
  ((- 2 ^ 63 <=? z) && (z <? 2 ^ 63))%Z.

(** The conversion [float64(i)], rounding to nearest even. *)
Definition floatOfZ (z : Z) : float :=
  SF2Prim (SpecFloat.binary_normalize FloatOps.prec FloatOps.emax z 0 false).

(** The integer a finite float with no fraction denotes. *)
Definition integralZ (f : float) : option Z :=
  match Prim2SF f with
  | SpecFloat.S754_zero _ => Some 0%Z
  | SpecFloat.S754_finite s m e =>
      let mag :=
        if (0 <=? e)%Z then Some (Z.pos m * 2 ^ e)%Z
        else if (Z.pos m mod 2 ^ (- e) =? 0)%Z
             then Some (Z.pos m / 2 ^ (- e))%Z
             else None in
      match mag with
      | Some z => Some (if s then (- z)%Z else z)
      | None => None
      end
  | _ => None
  end.

(** [math.Floor] and [math.Ceil]: infinities, NaN and zeros are returned
    as they are. *)
Definition Floor (f : float) : float :=
  match Prim2SF f with
  | SpecFloat.S754_finite s m e =>
      if (0 <=? e)%Z then f
      else
        let q := (Z.pos m / 2 ^ (- e))%Z in
        let exact := (Z.pos m mod 2 ^ (- e) =? 0)%Z in
        let z := if s then (if exact then - q else - (q + 1))%Z else q in
        SF2Prim (SpecFloat.binary_normalize FloatOps.prec FloatOps.emax z 0 s)
  | _ => f
  end.

Definition Ceil (f : float) : float := (- Floor (- f))%float.

(** ** [reflect.DeepEqual] on documents: floats compare with [==], maps
    by key. *)
Fixpoint lookup {A : Type} (k : string) (m : list (string * A)) : option A :=
  match m with
  | [] => None
  | (k', v) :: rest => if String.eqb k k' then Some v else lookup k rest
  end.

Fixpoint DeepEqual (a b : Value) {struct a} : bool :=
  match a, b with
  | VNil, VNil => true
  | VBool x, VBool y => Bool.eqb x y
  | VInt x, VInt y => (x =? y)%Z
  | VFloat x, VFloat y => (x =? y)%float
  | VString x, VString y => String.eqb x y
  | VList xs, VList ys =>
      (fix go (xs ys : list Value) {struct xs} : bool :=
         match xs, ys with
         | [], [] => true
         | x :: xs', y :: ys' => DeepEqual x y && go xs' ys'
         | _, _ => false
         end) xs ys
  | VMap xs, VMap ys =>
      Nat.eqb (length xs) (length ys)
      && (fix go (xs : list (string * Value)) {struct xs} : bool :=
            match xs with
            | [] => true
            | (k, x) :: xs' =>
                match lookup k ys with
                | Some y => DeepEqual x y && go xs'
                | None => false
                end
            end) xs
  | _, _ => false
  end.

(** ** Coercion helpers

    The helpers of the pipeline package ([asBool], [asList], ...) are in a
    file of the package that is outside this development. *)

(** Modelled from the spec: [asBool] is missing; the spec has [@bool]
    coerce a literal or sub-expression and lists ill-typed coercion as a
    failure: a bool is returned, anything else is an error. *)
Definition asBool (a : any) : result bool :=
  match a with
  | AVal (VBool b) => Ok b
  | _ => Err (ErrNew "not a bool")
  end.

(** Modelled from the spec: [asInt] is missing; an int64 is returned,
    anything else is an ill-typed coercion. *)
Definition asInt (a : any) : result Z :=
  match a with
  | AVal (VInt i) => Ok i
  | _ => Err (ErrNew "not an int")
  end.

(** Modelled from the spec: [asFloat] is missing; a float64 is returned
    and an int64 is widened to float64 (the numeric coercion rule),
    anything else is an ill-typed coercion. *)
Definition asFloat (a : any) : result float :=
  match a with
  | AVal (VFloat f) => Ok f
  | AVal (VInt i) => Ok (floatOfZ i)
  | _ => Err (ErrNew "not a float")
  end.

(** Modelled from the spec: [asString] is missing; a string is returned,
    anything else is an ill-typed coercion. *)
Definition asString (a : any) : result string :=
  match a with
  | AVal (VString s) => Ok s
  | _ => Err (ErrNew "not a string")
  end.

(** Modelled from the spec: [asList] is missing; a list is returned,
    anything else is an error. *)
Definition asList (v : Value) : result (list Value) :=
  match v with
  | VList l => Ok l
  | _ => Err (ErrNew "not a list")
  end.

(** Modelled from the spec: [asObject] is missing; a document (map) is
    returned, anything else is an error. *)
Definition asObject (v : Value) : result Unstructured :=
  match v with
  | VMap m => Ok m
  | _ => Err (ErrNew "not an object")
  end.

(** A loop that collects one result per element and returns at the first
    error. *)
Section MapM.
Variables A B : Type.
Variable f : A -> result B.
Fixpoint mapM (l : list A) : result (list B) :=
  match l with
  | [] => Ok []
  | x :: rest => y <- f x ;; ys <- mapM rest ;; Ok (y :: ys)
  end.
End MapM.

(** Modelled from the spec: [asBoolList] is missing; a list whose
    elements are all bools. *)
Definition asBoolList (v : Value) : result (list bool) :=
  l <- asList v ;; mapM (fun x => asBool (AVal x)) l.

(** Modelled from the spec: [asStringList] is missing; a list whose
    elements are all strings. *)
Definition asStringList (v : Value) : result (list string) :=
  l <- asList v ;; mapM (fun x => asString (AVal x)) l.

(** The three results [is, fs, kind] of the numeric list helpers. *)
Inductive numbers : Type :=
| Ints (ints : list Z)
| Floats (floats : list float).

Definition isInt (v : Value) : bool :=
  match v with VInt _ => true | _ => false end.

(** Modelled from the spec: [asIntOrFloatList] is missing; the numeric
    coercion rule: if all operands are int64 the list stays int64,
    otherwise all are widened to float64. *)
Definition asIntOrFloatList (v : Value) : result numbers :=
  l <- asList v ;;
  if forallb isInt l
  then ns <- mapM (fun x => asInt (AVal x)) l ;; Ok (Ints ns)
  else fs <- mapM (fun x => asFloat (AVal x)) l ;; Ok (Floats fs).

(** Modelled from the spec: [asBinaryIntOrFloatList] is missing; as
    [asIntOrFloatList], for exactly two operands. *)
Definition asBinaryIntOrFloatList (v : Value) : result numbers :=
  l <- asList v ;;
  if Nat.eqb (length l) 2 then asIntOrFloatList v
  else Err (ErrNew "expected 2 arguments").

(** Modelled from the spec: [asExpOrList] is missing; the higher-order
    operators carry a pair-shaped argument: a literal list expression
    gives its elements, any other expression stands alone. *)
Definition asExpOrList (a : option Expression) : result (list Expression) :=
  match a with
  | None => Err (ErrNew "empty argument")
  | Some (mkExpression op None (LExprs es)) =>
      if op =? "@list" then Ok es else Ok [mkExpression op None (LExprs es)]
  | Some x => Ok [x]
  end.

(** ** [unpackList]: unpacks the first-level list if any.

    A document only holds lists of type [[]any], so the [[][]any] branch
    of the source is not reachable from a [Value]. *)
Definition unpackList (a : Value) : list Value :=
  match a with
  | VList [] => []
  | VList (first :: rest) =>
      match first with
      | VList vs => vs
      | _ => first :: rest
      end
  | _ => [a]
  end.

(** Comparison of the two operands the binary helpers return; [is[0]] and
    [is[1]] panic on a shorter list. *)
Definition compareNumbers (ci : Z -> Z -> bool) (cf : float -> float -> bool)
  (n : numbers) : result Value :=
  match n with
  | Ints (a :: b :: _) => Ok (VBool (ci a b))
  | Floats (a :: b :: _) => Ok (VBool (cf a b))
  | _ => Panic "index out of range"
  end.

Definition startsWithAt (op : string) : bool :=
  match op with
  | String c _ => Ascii.eqb c "@"%char
  | EmptyString => false
  end.

(** ** [Expression.Evaluate] *)

Section Evaluate.

(** The JSON-path resolver and setter and the label-selector matcher are in
    files of the package that are outside this development; they are
    parameters of the evaluator.  [SetJSONPath] returns the updated
    document instead of writing into it. *)
Variable GetJSONPath : evalCtx -> string -> result Value.
Variable SetJSONPath :
  evalCtx -> string -> Value -> Unstructured -> result Unstructured.
Variable MatchLabels : Unstructured -> Unstructured -> result Value.

(** The loops of the higher-order operators over the evaluated list;
    [ev input] evaluates the lambda with [input] as subject. *)
Section Loops.

Variable e : Expression.
Variable ev : Value -> result Value.

Definition condition (input : Value) : result bool :=
  res <- ev input ;;
  orWrapped e "expected conditional expression to evaluate to boolean"
    (asBool (AVal res)).

Fixpoint filterLoop (inputs : list Value) : result (list Value) :=
  match inputs with
  | [] => Ok []
  | input :: rest =>
      b <- condition input ;;
      vs <- filterLoop rest ;;
      Ok (if b then input :: vs else vs)
  end.

Fixpoint anyLoop (inputs : list Value) : result bool :=
  match inputs with
  | [] => Ok false
  | input :: rest =>
      b <- condition input ;;
      if b then Ok true else anyLoop rest
  end.

Fixpoint allLoop (inputs : list Value) : result bool :=
  match inputs with
  | [] => Ok true
  | input :: rest =>
      b <- condition input ;;
      if b then allLoop rest else Ok false
  end.

Fixpoint noneLoop (inputs : list Value) : result bool :=
  match inputs with
  | [] => Ok true
  | input :: rest =>
      b <- condition input ;;
      if b then Ok false else noneLoop rest
  end.

End Loops.

(** [for k, exp := range vm]: the bindings are visited in the order of the
    list (Go leaves the order open). *)
Fixpoint dictLoop (e : Expression) (ev : Expression -> result Value)
  (ctx : evalCtx) (vm : list (string * Expression)) (ret : Unstructured)
  : result Unstructured :=
  match vm with
  | [] => Ok ret
  | (k, exp) :: rest =>
      res <- ev exp ;;
      ret' <- orWrapped e "could not deference JSON set expression"
                (SetJSONPath ctx k res ret) ;;
      dictLoop e ev ctx rest ret'
  end.

(** The operators that receive their evaluated argument [arg]. *)
Definition evalOperator (e : Expression) (arg : Value) : result Value :=
  let op := Op e in
  if op =? "@isnil" then
    Ok (VBool (match arg with VNil => true | _ => false end))
  else if op =? "@exists" then
    Ok (VBool (match arg with VNil => false | _ => true end))
  else if op =? "@not" then
    b <- orExpressionError e (asBool (AVal arg)) ;;
    Ok (VBool (negb b))
  else if op =? "@eq" then
    args <- orExpressionError e (asList arg) ;;
    match args with
    | [a0; a1] => Ok (VBool (DeepEqual a0 a1))
    | _ => Err (ErrExpression e (ErrNew "expected 2 arguments"))
    end
  else if op =? "@and" then
    args <- orExpressionError e (asBoolList arg) ;;
    Ok (VBool (fold_left andb args true))
  else if op =? "@or" then
    args <- orExpressionError e (asBoolList arg) ;;
    Ok (VBool (fold_left orb args false))
  else if op =? "@lt" then
    n <- orExpressionError e (asBinaryIntOrFloatList arg) ;;
    compareNumbers Z.ltb PrimFloat.ltb n
  else if op =? "@lte" then
    n <- orExpressionError e (asBinaryIntOrFloatList arg) ;;
    compareNumbers Z.leb PrimFloat.leb n
  else if op =? "@gt" then
    n <- orExpressionError e (asBinaryIntOrFloatList arg) ;;
    compareNumbers Z.gtb (fun a b => PrimFloat.ltb b a) n
  else if op =? "@gte" then
    n <- orExpressionError e (asBinaryIntOrFloatList arg) ;;
    compareNumbers Z.geb (fun a b => PrimFloat.leb b a) n
  else if op =? "@selector" then
    args <- orExpressionError e (asList arg) ;;
    match args with
    | [a0; a1] =>
        match a0, a1 with
        | VNil, _ | _, VNil => Ok (VBool false)
        | _, _ =>
            selector <- orWrapped e "invalid label selector" (asObject a0) ;;
            labels <- orWrapped e "invalid label set" (asObject a1) ;;
            res <- match MatchLabels labels selector with
                   | Err cause =>
                       Err (ErrWrap "failed to evaluate label selector" cause)
                   | other => other
                   end ;;
            v <- orWrapped e
                   "expected label selector expression to evaluate to boolean"
                   (asBool (AVal res)) ;;
            Ok (VBool v)
        end
    | _ => Err (ErrExpression e
                  (ErrNew "invalid arguments: expected 2 arguments"))
    end
  else if op =? "@abs" then
    f <- orExpressionError e (asFloat (AVal arg)) ;;
    Ok (VFloat (PrimFloat.abs f))
  else if op =? "@ceil" then
    f <- orExpressionError e (asFloat (AVal arg)) ;;
    Ok (VFloat (Ceil f))
  else if op =? "@floor" then
    f <- orExpressionError e (asFloat (AVal arg)) ;;
    Ok (VFloat (Floor f))
  else if op =? "@sum" then
    n <- orExpressionError e (asIntOrFloatList arg) ;;
    match n with
    | Ints ns => Ok (VInt (fold_left (fun vi i => wrap64 (vi + i)) ns 0%Z))
    | Floats fs => Ok (VFloat (fold_left PrimFloat.add fs PrimFloat.zero))
    end
  else if op =? "@len" then
    args <- orExpressionError e (asList arg) ;;
    Ok (VInt (Z.of_nat (length args)))
  else if op =? "@in" then
    args <- orExpressionError e (asList arg) ;;
    match args with
    | [elem; a1] =>
        inputs <- orExpressionError e (asList a1) ;;
        Ok (VBool (existsb (fun x => DeepEqual x elem) inputs))
    | _ => Err (ErrExpression e (ErrNew "expected 2 arguments"))
    end
  else if op =? "@concat" then
    args <- orExpressionError e (asStringList arg) ;;
    Ok (VString (fold_left String.append args ""))
  else Err (ErrExpression e (ErrNew "unknown op")).

(** [Evaluate]; [fuel] bounds the depth of the recursion.  The log lines
    are left out: each one prints the expression with [String] before a
    result is returned, which is harmless on the expressions the parser
    builds ([MarshalJSON] succeeds on them) and panics on an expression
    that holds an empty op. *)
Fixpoint Evaluate (fuel : nat) (e : Expression) (ctx : evalCtx)
  {struct fuel} : result Value :=
  match fuel with
  | O => OutOfFuel
  | S fuel =>
    let op := Op e in
    (* [lit := e.Literal], replaced by the value of [e.Arg] when set *)
    let argOrLiteral :=
      match Arg e with
      | Some a => v <- Evaluate fuel a ctx ;; Ok (AVal v)
      | None => Ok (litAny (Literal e))
      end in
    (* the list commands: lambda [args[0]] over the list [args[1]] *)
    let higherOrder (checked : bool)
          (loop : (Value -> result Value) -> list Value -> result Value) :=
      args <- orExpressionError e (asExpOrList (Arg e)) ;;
      if checked && negb (Nat.eqb (length args) 2)
      then Err (ErrExpression e
                  (ErrNew "invalid arguments: expected 2 arguments"))
      else
        match args with
        | exp :: a1 :: _ =>
            rawArg <- orNew "failed to evaluate arguments"
                        (Evaluate fuel a1 ctx) ;;
            inputs <- orNew "invalid arguments: expected a list"
                        (asList rawArg) ;;
            loop (fun input => Evaluate fuel exp (mkCtx (object ctx) input))
              inputs
        | _ => Panic "index out of range"
        end in
    if Nat.eqb (String.length op) 0 then
      (* the message is built from [e.String()]: [json.Marshal] calls
         [MarshalJSON], whose default case indexes [e.Op[0]] *)
      Panic "index out of range"
    else if op =? "@bool" then
      lit <- argOrLiteral ;;
      v <- orExpressionError e (asBool lit) ;;
      Ok (VBool v)
    else if op =? "@int" then
      lit <- argOrLiteral ;;
      v <- orExpressionError e (asInt lit) ;;
      Ok (VInt v)
    else if op =? "@float" then
      lit <- argOrLiteral ;;
      v <- orExpressionError e (asFloat lit) ;;
      Ok (VFloat v)
    else if op =? "@string" then
      lit <- argOrLiteral ;;
      str <- orExpressionError e (asString lit) ;;
      GetJSONPath ctx str
    else if op =? "@list" then
      ret <- match Arg e with
             | Some a =>
                 v <- Evaluate fuel a ctx ;;
                 match v with
                 | VList vs => Ok vs
                 | _ => Err (ErrExpression e
                               (ErrNew "argument must be a list"))
                 end
             | None =>
                 match Literal e with
                 | LExprs vs => mapM (fun exp => Evaluate fuel exp ctx) vs
                 | _ => Err (ErrExpression e
                               (ErrNew "argument must be an expression list"))
                 end
             end ;;
      (* WARNING: this will destroy multi-dimensional arrays *)
      Ok (VList (unpackList (VList ret)))
    else if op =? "@dict" then
      match Arg e with
      | Some a =>
          v <- Evaluate fuel a ctx ;;
          match v with
          | VMap vs => Ok (VMap vs)
          | _ => Err (ErrExpression e (ErrNew "argument must be a map"))
          end
      | None =>
          match Literal e with
          | LMap vm =>
              ret <- dictLoop e (fun exp => Evaluate fuel exp ctx) ctx vm [] ;;
              Ok (VMap ret)
          | _ => Err (ErrExpression e
                        (ErrNew "argument must be a map literal"))
          end
      end
    else if op =? "@filter" then
      higherOrder true (fun ev inputs =>
        vs <- filterLoop e ev inputs ;; Ok (VList vs))
    else if op =? "@any" then
      higherOrder true (fun ev inputs =>
        v <- anyLoop e ev inputs ;; Ok (VBool v))
    else if op =? "@all" then
      higherOrder true (fun ev inputs =>
        v <- allLoop e ev inputs ;; Ok (VBool v))
    else if op =? "@none" then
      higherOrder true (fun ev inputs =>
        v <- noneLoop e ev inputs ;; Ok (VBool v))
    else if op =? "@map" then
      higherOrder false (fun ev inputs =>
        vs <- mapM ev inputs ;; Ok (VList vs))
    else
      (* operators: evaluate the subexpression first *)
      match Arg e with
      | None => Err (ErrExpression e (ErrNew "empty argument list"))
      | Some a =>
          arg <- Evaluate fuel a ctx ;;
          if startsWithAt op then evalOperator e arg
          else (* literal map *) Ok (VMap [(op, arg)])
      end
  end.

End Evaluate.


(** ** [json.Unmarshal] into the Go types [UnmarshalJSON] tries

    Each function gives the value stored into the zero-initialised
    variable, or [None] when [json.Unmarshal] returns an error.  A JSON
    [null] has no effect on a scalar and produces no error. *)
Definition unmarshalBool (b : json) : option bool :=
  match b with
  | JBool v => Some v
  | JNull => Some false
  | _ => None
  end.

(** [strconv.ParseInt(token, 10, 64)] fails on a fraction, an exponent
    and on overflow. *)
Definition unmarshalInt64 (b : json) : option Z :=
  match b with
  | JInt z => if inInt64 z then Some z else None
  | JNull => Some 0%Z
  | _ => None
  end.

Definition unmarshalFloat64 (b : json) : option float :=
  match b with
  | JInt z => let f := floatOfZ z in if is_finite f then Some f else None
  | JFrac f => if is_finite f then Some f else None
  | JNull => Some PrimFloat.zero
  | _ => None
  end.

Definition unmarshalString (b : json) : option string :=
  match b with
  | JString v => Some v
  | JNull => Some ""
  | _ => None
  end.

(** Assignment [m[k] = v] on a Go map. *)
Fixpoint mapInsert {A : Type} (k : string) (v : A) (m : list (string * A))
  : list (string * A) :=
  match m with
  | [] => [(k, v)]
  | (k', v') :: rest =>
      if String.eqb k k' then (k, v) :: rest
      else (k', v') :: mapInsert k v rest
  end.

Definition mapOfBindings {A : Type} (bs : list (string * A))
  : list (string * A) :=
  fold_left (fun m kv => mapInsert (fst kv) (snd kv) m) bs [].

(** ** [Expression.UnmarshalJSON]

    The decoder calls [UnmarshalJSON] on every element of a list and on
    every value of an object; an error of an element makes the whole
    [json.Unmarshal] of that attempt fail. *)
Fixpoint UnmarshalJSON (b : json) : result Expression :=
  (* try to unmarshal as a bool terminal expression *)
  match unmarshalBool b with
  | Some bv => Ok (mkExpression "@bool" None (LBool bv))
  | None =>
  (* try to unmarshal as an int terminal expression *)
  match unmarshalInt64 b with
  | Some iv => Ok (mkExpression "@int" None (LInt iv))
  | None =>
  (* try to unmarshal as a float terminal expression *)
  match unmarshalFloat64 b with
  | Some fv => Ok (mkExpression "@float" None (LFloat fv))
  | None =>
  (* try to unmarshal as a string terminal expression *)
  let stringAttempt :=
    match unmarshalString b with
    | Some sv => if sv =? "" then None else Some sv
    | None => None
    end in
  match stringAttempt with
  | Some sv => Ok (mkExpression "@string" None (LString sv))
  | None =>
  (* try to unmarshal as a literal list expression *)
  let listAttempt : result (list Expression) :=
    match b with
    | JArray l => mapM UnmarshalJSON l
    | JNull => Ok []
    | _ => Err (ErrJSON "cannot unmarshal into a list of expressions")
    end in
  match listAttempt with
  | Ok mv => Ok (mkExpression "@list" None (LExprs mv))
  | Panic msg => Panic msg
  | OutOfFuel => OutOfFuel
  | Err _ =>
  (* try to unmarshal as a map expression *)
  let mapAttempt : result (list (string * Expression)) :=
    match b with
    | JObject m =>
        bs <- mapM (fun kv => x <- UnmarshalJSON (snd kv) ;; Ok (fst kv, x)) m ;;
        Ok (mapOfBindings bs)
    | JNull => Ok []
    | _ => Err (ErrJSON "cannot unmarshal into a map of expressions")
    end in
  match mapAttempt with
  | Ok cv =>
      (* specialcase operators: an op has a single key that starts with @ *)
      match cv with
      | [(op, exp)] =>
          match op with
          | EmptyString => Panic "index out of range"
          | String c _ =>
              if Ascii.eqb c "@"%char
              then Ok (mkExpression op (Some exp) LNil)
              else Ok (mkExpression "@dict" None (LMap cv))
          end
      (* literal map: store as exp with op @dict and map as Literal *)
      | _ => Ok (mkExpression "@dict" None (LMap cv))
      end
  | Panic msg => Panic msg
  | OutOfFuel => OutOfFuel
  | Err _ => Err (ErrUnmarshal "expression" b)
  end end end end end end.

(** ** [json.Marshal] *)

(** A float64 is written in its shortest form: a finite value without
    fraction below 1e21 prints as an integer token; infinities and NaN are
    refused.  The integer token is exact up to 2^53; above, the encoder
    writes the shortest digits that read back as the same float64, padded
    with zeros: an integer token as well, with other low digits. *)
Definition marshalFloat (f : float) : result json :=
  if is_finite f then
    match integralZ f with
    | Some z => if (Z.abs z <? 10 ^ 21)%Z then Ok (JInt z) else Ok (JFrac f)
    | None => Ok (JFrac f)
    end
  else Err (ErrJSON "unsupported value").

(** The encoder writes the keys of a map in sorted order. *)
Fixpoint insertByKey {A : Type} (kv : string * A) (l : list (string * A))
  : list (string * A) :=
  match l with
  | [] => [kv]
  | kv' :: rest =>
      if String.leb (fst kv) (fst kv') then kv :: l
      else kv' :: insertByKey kv rest
  end.

Definition sortByKey {A : Type} (l : list (string * A)) : list (string * A) :=
  fold_right insertByKey [] l.

Definition marshalMap (m : list (string * result json)) : result json :=
  bs <- mapM (fun kv : string * result json =>
                j <- snd kv ;; Ok (fst kv, j)) (sortByKey m) ;;
  Ok (JObject bs).

(** ** [Expression.MarshalJSON]

    [marshalExpression true e] is [e.MarshalJSON()], which the encoder
    calls for a [*Expression] and for an element of a [[]Expression].
    [marshalExpression false e] is the encoding of an [Expression] that is
    not addressable (a value of a [map[string]Expression] handed to
    [json.Marshal] directly): the method has a pointer receiver, so the
    struct is written field by field. *)
Fixpoint marshalExpression (method : bool) (e : Expression) {struct e}
  : result json :=
  match e with
  | mkExpression op arg lit =>
    (* [json.Marshal(p)] for [p *Expression] *)
    let marshalPtr (p : option Expression) : result json :=
      match p with
      | Some a => marshalExpression true a
      | None => Ok JNull
      end in
    (* [json.Marshal(v)] for [v any] *)
    let marshalAny (l : Lit Expression) : result json :=
      match l with
      | LNil => Ok JNull
      | LBool b => Ok (JBool b)
      | LInt i => Ok (JInt i)
      | LFloat f => marshalFloat f
      | LString s => Ok (JString s)
      | LExprs es => js <- mapM (marshalExpression true) es ;; Ok (JArray js)
      | LMap m =>
          marshalMap
            (map (fun kv => (fst kv, marshalExpression false (snd kv))) m)
      end in
    (* [ret := map[string]*Expression{e.Op: e.Arg}; json.Marshal(ret)] *)
    let keepOp : result json :=
      j <- marshalPtr arg ;; Ok (JObject [(op, j)]) in
    if negb method then
      a <- marshalPtr arg ;;
      l <- marshalAny lit ;;
      Ok (JObject [("Op", JString op); ("Arg", a); ("Literal", l)])
    else if op =? "@any" then marshalAny lit
    else if op =? "@bool" then
      match arg with
      | Some _ => keepOp
      | None => v <- asBool (litAny lit) ;; Ok (JBool v)
      end
    else if op =? "@int" then
      match arg with
      | Some _ => keepOp
      | None => v <- asInt (litAny lit) ;; Ok (JInt v)
      end
    else if op =? "@float" then
      match arg with
      | Some _ => keepOp
      | None => v <- asFloat (litAny lit) ;; marshalFloat v
      end
    else if op =? "@string" then
      match arg with
      | Some _ => keepOp
      | None => v <- asString (litAny lit) ;; Ok (JString v)
      end
    else if op =? "@list" then
      match arg with
      | Some _ => marshalPtr arg
      | None =>
          match lit with
          | LExprs es =>
              js <- mapM (marshalExpression true) es ;; Ok (JArray js)
          | _ => Err (ErrNew "invalid expression list")
          end
      end
    else if op =? "@dict" then
      match arg with
      | Some _ => marshalPtr arg
      | None =>
          match lit with
          | LMap es =>
              marshalMap
                (map (fun kv => (fst kv, marshalExpression true (snd kv))) es)
          | _ => Err (ErrNew "invalid expression map")
          end
      end
    else
      (* everything else is a valid op *)
      match op with
      | EmptyString => Panic "index out of range"
      | String c _ =>
          if Ascii.eqb c "@"%char then keepOp
          else Err (ErrNew "expected an op starting with @")
      end
  end.

Definition MarshalJSON (e : Expression) : result json :=
  marshalExpression true e.

(** ** Vocabulary and examples of the properties *)

Definition isList (v : Value) : bool :=
  match v with VList _ => true | _ => false end.

(** A two-row list of lists. *)
Definition twoRows : list Value :=
  [VList [VInt 1; VInt 2]; VList [VInt 3; VInt 4]].

(** The document [[[1,2],[3,4]]]. *)
Definition twoRowsJSON : json :=
  JArray [JArray [JInt 1; JInt 2]; JArray [JInt 3; JInt 4]].

(** A terminal or literal expression: no stacked argument. *)
Definition lit (op : string) (l : Lit Expression) : Expression :=
  mkExpression op None l.

(** An operator applied to its argument. *)
Definition operator (op : string) (arg : Expression) : Expression :=
  mkExpression op (Some arg) LNil.

Definition ints (l : list Z) : Expression :=
  lit "@list" (LExprs (map (fun i => lit "@int" (LInt i)) l)).

(** [{"@filter": [{"@gt": ["$", 3]}, {"@list": [1,2,3,4,5]}]}] *)
Definition filterJSON : json :=
  JObject
    [("@filter",
      JArray
        [JObject [("@gt", JArray [JString "$"; JInt 3])];
         JObject
           [("@list", JArray [JInt 1; JInt 2; JInt 3; JInt 4; JInt 5])]])].

Definition filterExpression : Expression :=
  operator "@filter"
    (lit "@list"
       (LExprs
          [operator "@gt"
             (lit "@list"
                (LExprs [lit "@string" (LString "$"); lit "@int" (LInt 3)]));
           operator "@list" (ints [1; 2; 3; 4; 5]%Z)])).

(** A resolver that binds [$] to the subject and leaves every other string
    as it is, a setter that assigns the key, a matcher that never
    matches. *)
Definition subjectResolver (c : evalCtx) (key : string) : result Value :=
  if key =? "$" then Ok (subject c) else Ok (VString key).

Definition keySetter (_ : evalCtx) (key : string) (v : Value)
  (doc : Unstructured) : result Unstructured :=
  Ok (mapInsert key v doc).

Definition noMatch (_ _ : Unstructured) : result Value := Ok (VBool false).

(** [{"@any": [true, [1]]}]: is any element of [[1]] such that [true]? *)
Definition anyJSON : json :=
  JObject [("@any", JArray [JBool true; JArray [JInt 1]])].

Definition anyExpression : Expression :=
  operator "@any"
    (lit "@list" (LExprs [lit "@bool" (LBool true); ints [1%Z]])).

(** The keys of a map are pairwise different. *)
Fixpoint distinctKeys {A : Type} (m : list (string * A)) : bool :=
  match m with
  | [] => true
  | kv :: rest =>
      negb (existsb (fun kv' => String.eqb (fst kv) (fst kv')) rest)
      && distinctKeys rest
  end.

(** A map of one binding whose key [UnmarshalJSON] indexes to look for an
    operator: the empty key or a key that starts with [@]. *)
Definition operatorShaped {A : Type} (m : list (string * A)) : bool :=
  match m with
  | [(op, _)] =>
      match op with
      | EmptyString => true
      | String c _ => Ascii.eqb c "@"%char
      end
  | _ => false
  end.

(** The shapes [UnmarshalJSON] builds: a terminal carries its literal and
    no argument (an int64, a finite float, a non-empty string), a list or
    dict literal holds such expressions, and an operator has an op that
    starts with [@], an argument and no literal. *)
Fixpoint wellFormed (e : Expression) : bool :=
  match e with
  | mkExpression op arg lit =>
      match arg, lit with
      | None, LBool _ => op =? "@bool"
      | None, LInt z => (op =? "@int") && inInt64 z
      | None, LFloat f => (op =? "@float") && is_finite f
      | None, LString s => (op =? "@string") && negb (s =? "")
      | None, LExprs es => (op =? "@list") && forallb wellFormed es
      | None, LMap m =>
          (op =? "@dict")
          && forallb (fun kv => wellFormed (snd kv)) m
          && distinctKeys m
          && negb (operatorShaped m)
      | Some a, LNil => startsWithAt op && wellFormed a
      | _, _ => false
      end
  end.

(** A float that [json.Marshal] writes with a fraction or an exponent. *)
Definition writtenAsFloat (f : float) : bool :=
  is_finite f
  && match integralZ f with
     | Some z => negb (Z.abs z <? 10 ^ 21)%Z
     | None => true
     end.

(** The well-formed expressions outside the three leaks of the round trip:
    no [@any], [@list] or [@dict] operator and no float terminal that is
    written as an integer. *)
Fixpoint stable (e : Expression) : bool :=
  match e with
  | mkExpression op arg lit =>
      match arg, lit with
      | None, LBool _ => op =? "@bool"
      | None, LInt z => (op =? "@int") && inInt64 z
      | None, LFloat f => (op =? "@float") && writtenAsFloat f
      | None, LString s => (op =? "@string") && negb (s =? "")
      | None, LExprs es => (op =? "@list") && forallb stable es
      | None, LMap m =>
          (op =? "@dict")
          && forallb (fun kv => stable (snd kv)) m
          && distinctKeys m
          && negb (operatorShaped m)
      | Some a, LNil =>
          startsWithAt op
          && negb (op =? "@any") && negb (op =? "@list")
          && negb (op =? "@dict")
          && stable a
      | _, _ => false
      end
  end.

(** The same expression with the bindings of every dict literal in the
    order of their keys (a Go map has no order of its own). *)
Fixpoint inKeyOrder (e : Expression) : Expression :=
  match e with
  | mkExpression op arg lit =>
      mkExpression op
        match arg with
        | Some a => Some (inKeyOrder a)
        | None => None
        end
        match lit with
        | LExprs es => LExprs (map inKeyOrder es)
        | LMap m =>
            LMap (sortByKey (map (fun kv => (fst kv, inKeyOrder (snd kv))) m))
        | other => other
        end
  end.

(** [n] list literals of one element around [e]: [[[...e...]]]. *)
Fixpoint nested (n : nat) (e : Expression) : Expression :=
  match n with
  | O => e
  | S n => lit "@list" (LExprs [nested n e])
  end.

(** The operators [Evaluate] knows. *)
Definition knownOps : list string :=
  ["@bool"; "@int"; "@float"; "@string"; "@list"; "@dict";
   "@filter"; "@any"; "@all"; "@none"; "@map";
   "@isnil"; "@exists"; "@not"; "@eq"; "@and"; "@or";
   "@lt"; "@lte"; "@gt"; "@gte"; "@selector";
   "@abs"; "@ceil"; "@floor"; "@sum"; "@len"; "@in"; "@concat"].

(** [{"@filter": [{"@gt": ["$", t]}, {"@list": ns}]}] *)
Definition filterAbove (t : Z) (ns : list Z) : Expression :=
  operator "@filter"
    (lit "@list"
       (LExprs
          [operator "@gt"
             (lit "@list"
                (LExprs [lit "@string" (LString "$"); lit "@int" (LInt t)]));
           operator "@list" (ints ns)])).

(** The map has a binding for the key. *)
Definition hasKey {A : Type} (k : string) (m : list (string * A)) : bool :=
  existsb (fun kv => String.eqb k (fst kv)) m.

(** Structural induction over documents and over expressions, through the
    lists and maps they hold. *)
Section JsonInd.
Variable P : json -> Prop.
Hypothesis HNull : P JNull.
Hypothesis HBool : forall b, P (JBool b).
Hypothesis HInt : forall z, P (JInt z).
Hypothesis HFrac : forall f, P (JFrac f).
Hypothesis HString : forall s, P (JString s).
Hypothesis HArray : forall l, Forall P l -> P (JArray l).
Hypothesis HObject :
  forall m, Forall (fun kv => P (snd kv)) m -> P (JObject m).

Fixpoint json_nested_ind (j : json) : P j :=
  match j with
  | JNull => HNull
  | JBool b => HBool b
  | JInt z => HInt z
  | JFrac f => HFrac f
  | JString s => HString s
  | JArray l =>
      HArray
        ((fix go (l : list json) : Forall P l :=
            match l with
            | [] => Forall_nil P
            | x :: rest => Forall_cons x (json_nested_ind x) (go rest)
            end) l)
  | JObject m =>
      HObject
        ((fix go (m : list (string * json))
            : Forall (fun kv => P (snd kv)) m :=
            match m with
            | [] => Forall_nil _
            | kv :: rest =>
                Forall_cons (P := fun kv => P (snd kv)) kv
                  (json_nested_ind (snd kv)) (go rest)
            end) m)
  end.
End JsonInd.

Section ExpressionInd.
Variable P : Expression -> Prop.

Definition argHolds (arg : option Expression) : Prop :=
  match arg with
  | Some a => P a
  | None => True
  end.

Definition literalHolds (l : Lit Expression) : Prop :=
  match l with
  | LExprs es => Forall P es
  | LMap m => Forall (fun kv => P (snd kv)) m
  | _ => True
  end.

Hypothesis step :
  forall op arg l, argHolds arg -> literalHolds l -> P (mkExpression op arg l).

Fixpoint Expression_nested_ind (e : Expression) : P e :=
  match e with
  | mkExpression op arg l =>
      @step op arg l
        (match arg return argHolds arg with
         | Some a => Expression_nested_ind a
         | None => I
         end)
        (match l return literalHolds l with
         | LExprs es =>
             (fix go (es : list Expression) : Forall P es :=
                match es with
                | [] => Forall_nil P
                | x :: rest =>
                    Forall_cons x (Expression_nested_ind x) (go rest)
                end) es
         | LMap m =>
             (fix go (m : list (string * Expression))
                : Forall (fun kv => P (snd kv)) m :=
                match m with
                | [] => Forall_nil _
                | kv :: rest =>
                    Forall_cons (P := fun kv => P (snd kv)) kv
                      (Expression_nested_ind (snd kv)) (go rest)
                end) m
         | _ => I
         end)
  end.
End ExpressionInd.

(** An expression round-trips: when it is [stable], it marshals to a
    document that parses back to it, with dict bindings in key order. *)
Definition roundTrips (e : Expression) : Prop :=
  stable e = true ->
  exists j, marshalExpression true e = Ok j
            /\ UnmarshalJSON j = Ok (inKeyOrder e).

(** [{"b": [1, "x"], "a": {"@len": [true]}}] as the parser reads it. *)
Definition sampleDict : Expression :=
  lit "@dict"
    (LMap
       [("b", lit "@list"
                (LExprs [lit "@int" (LInt 1); lit "@string" (LString "x")]));
        ("a", operator "@len"
                (lit "@list" (LExprs [lit "@bool" (LBool true)])))]).

(** The strings of the expression (ops, keys and string literals) are
    ASCII text.  [json.Marshal] writes a byte that is not valid UTF-8 as
    the replacement character, so only valid text survives the coding
    unchanged; the documents of this file are trees, their strings stand
    for the text between the quotes. *)
Definition asciiOnly (s : string) : bool :=
  forallb (fun c => Nat.ltb (nat_of_ascii c) 128) (list_ascii_of_string s).

Fixpoint plainText (e : Expression) : bool :=
  match e with
  | mkExpression op arg l =>
      asciiOnly op
      && match arg with
         | Some a => plainText a
         | None => true
         end
      && match l with
         | LString s => asciiOnly s
         | LExprs es => forallb plainText es
         | LMap m =>
             forallb (fun kv => asciiOnly (fst kv) && plainText (snd kv)) m
         | _ => true
         end
  end.

(** [{"@any": [{"@gt": ["$", 3]}, {"@list": ns}]}] without the op. *)
Definition someAbove3 (ns : list Z) : Expression :=
  lit "@list"
    (LExprs
       [operator "@gt"
          (lit "@list"
             (LExprs [lit "@string" (LString "$"); lit "@int" (LInt 3)]));
        operator "@list" (ints ns)]).

(** A predicate that holds of the positive int64s and fails on anything
    that is not an int64. *)
Definition isPositive (v : Value) : result Value :=
  match v with
  | VInt z => Ok (VBool (0 <? z)%Z)
  | _ => Err (ErrNew "not an int")
  end.

End Pipeline.

(** * pkg/controller/controller.go *)
Module Controller.

Local Open Scope string_scope.
Local Open Scope list_scope.

Definition WatcherBufferSize : nat := 1024.

(** Modelled from the spec: [cache.DeltaType] is declared outside this
    development; a delta is of type Added, Updated, Replaced, Deleted or
    Sync. *)
Inductive DeltaType : Type := Added | Updated | Replaced | Deleted | Sync.

(** A line written to the controller's logger: verbosity and message. *)
Record entry : Type := mkEntry {
  verbosity : nat;
  message : string;
  detail : string
}.

Section Runtime.

(** Declared in other files of the package or in the packages it imports:
    the source and target descriptions, the two stages of a pipeline,
    unstructured objects, the errors of the collaborators, the pipeline
    engine, and the manager with the cluster behind it. *)
Variables Source Target JoinStage AggregateStage : Type.
Variables Object xerror Engine Manager : Type.
Variables RuntimeController RuntimeSource : Type.

(** [config.Target == emptyTarget]: Go's comparison of two structs. *)
Variable Target_eq_dec : forall a b : Target, {a = b} + {a <> b}.
Variable emptyTarget : Target.
Variable TargetKind : Target -> string.

(** Modelled from the spec: [pipeline.Pipeline] is declared outside this
    development; an operator spec writes it as an optional [@join] and an
    optional [@aggregate]. *)
Record Pipeline : Type := mkPipeline {
  Join : option JoinStage;
  Aggregation : option AggregateStage
}.

(** Config is the basic view definition. *)
Record Config : Type := mkConfig {
  Sources : list Source;
  ConfigPipeline : Pipeline;
  ConfigTarget : Target
}.

Record Request : Type := mkRequest {
  GVK : Cache.GroupVersionKind;
  Namespace : string;
  Name : string;
  EventType : DeltaType
}.

Record Delta : Type := mkDelta {
  Type_ : DeltaType;
  DeltaObject : Object
}.

(** [errors.New(msg)] and [fmt.Errorf(msg + ": %w", err)].  [ErrorString]
    is the head of [err.Error()]: the text before the formatted kind, key
    and cause. *)
Inductive error : Type :=
| ErrNew (msg : string)
| Errorf (msg : string) (cause : xerror).

Definition ErrorString (e : error) : string :=
  match e with
  | ErrNew msg => msg
  | Errorf msg _ => msg
  end.

(** What the running controller changes: the manager (and through its
    client the cluster), the engine of the pipeline, the deltas handed to
    [target.Write] so far, and the log. *)
Record State : Type := mkState {
  manager : Manager;
  engine : Engine;
  writes : list Delta;
  log : list entry
}.

Definition logInfo (v : nat) (msg detail : string) (st : State) : State :=
  mkState (manager st) (engine st) (writes st)
    (log st ++ [mkEntry v msg detail]).

(** [ProcessorFunc]; the controller it receives is given by its
    configuration. *)
Definition ProcessorFunc : Type :=
  Config -> Request -> State -> State * option error.

Record Options : Type := mkOptions {
  Processor : option ProcessorFunc
}.

Record Controller : Type := mkController {
  name : string;
  kind : string;
  config : Config;
  watcher : nat;            (* capacity of the request channel *)
  initialEngine : Engine;
  processor : ProcessorFunc
}.

(** The collaborators. *)
Variable GetGVK : Source -> Manager -> xerror + Cache.GroupVersionKind.
Variable NewTyped :
  string -> Manager -> Manager * (xerror + RuntimeController).
Variable GetSource : Manager -> Source -> xerror + RuntimeSource.
Variable Watch :
  RuntimeController -> RuntimeSource -> Manager -> Manager * option xerror.
Variable NewDefaultEngine :
  string -> list Cache.GroupVersionKind -> Engine.
Variable Add : Controller -> Manager -> Manager * option xerror.
Variable NewObject : Cache.GroupVersionKind -> string -> string -> Object.
Variable ClientGet : Manager -> Cache.ObjectKey -> Object -> xerror + Object.
Variable PipelineEvaluate :
  Pipeline -> Engine -> Delta -> Engine * (xerror + list Delta).
Variable TargetWrite : Target -> Delta -> Manager -> Manager * option xerror.

(** ** [processRequest] *)

(** Apply the resultant deltas: the loop over [deltas]. *)
Fixpoint writeDeltas (c : Config) (deltas : list Delta) (st : State)
  : State * option error :=
  match deltas with
  | [] => (st, None)
  | d :: rest =>
      let st1 := logInfo 4 "writing delta to target" "" st in
      let (mgr, err) := TargetWrite (ConfigTarget c) d (manager st1) in
      let st2 := mkState mgr (engine st1) (writes st1 ++ [d]) (log st1) in
      match err with
      | Some cause =>
          (st2, Some (Errorf "controller: cannot update target" cause))
      | None => writeDeltas c rest st2
      end
  end.

Definition fetches (t : DeltaType) : bool :=
  match t with
  | Added | Updated | Replaced => true
  | Deleted | Sync => false
  end.

Definition processRequest : ProcessorFunc :=
  fun c req st =>
  (* Obtain the requested object *)
  let obj := NewObject (GVK req) (Namespace req) (Name req) in
  let fetched :=
    if fetches (EventType req)
    then ClientGet (manager st) (Cache.mkKey (Namespace req) (Name req)) obj
    else inr obj in
  match fetched with
  | inl cause =>
      (st, Some (Errorf
                   "controller: object disappeared for Add/Update event"
                   cause))
  | inr obj =>
      let delta := mkDelta (EventType req) obj in
      (* Process the delta through the pipeline *)
      let (eng, res) := PipelineEvaluate (ConfigPipeline c) (engine st) delta in
      let st1 := mkState (manager st) eng (writes st) (log st) in
      match res with
      | inl cause =>
          (st1, Some (Errorf "controller: error evaluating pipeline" cause))
      | inr deltas => writeDeltas c deltas st1
      end
  end.

(** ** [New] *)

(** The loop of [New] over the sources: one runtime controller and one
    watch per source; returns the kinds of the base views. *)
Fixpoint watchSources (name : string) (sources : list Source)
  (mgr : Manager) (baseviews : list Cache.GroupVersionKind)
  : Manager * (error + list Cache.GroupVersionKind) :=
  match sources with
  | [] => (mgr, inr baseviews)
  | s :: rest =>
      match GetGVK s mgr with
      | inl cause =>
          (mgr, inl (Errorf "controller: cannot obtain GVK for source" cause))
      | inr gvk =>
          match NewTyped name mgr with
          | (mgr1, inl cause) =>
              (mgr1, inl (Errorf
                "controller: cannot create runtime controller for resource"
                cause))
          | (mgr1, inr ctrl) =>
              match GetSource mgr1 s with
              | inl cause =>
                  (mgr1, inl (Errorf
                    "controller: cannot create runtime source for resource"
                    cause))
              | inr src =>
                  match Watch ctrl src mgr1 with
                  | (mgr2, Some cause) =>
                      (mgr2, inl (Errorf
                         "controller: cannot watch resource" cause))
                  | (mgr2, None) =>
                      watchSources name rest mgr2 (baseviews ++ [gvk])
                  end
              end
          end
      end
  end.

(** The part of [New] after the sanity check: build the controller, watch
    the sources, create the engine and schedule the controller. *)
Definition register (name : string) (mgr : Manager) (config : Config)
  (processor : ProcessorFunc) : Manager * (error + Controller) :=
  match watchSources name (Sources config) mgr [] with
  | (mgr1, inl err) => (mgr1, inl err)
  | (mgr1, inr baseviews) =>
      let kind := TargetKind (ConfigTarget config) in
      let c := mkController name kind config WatcherBufferSize
                 (NewDefaultEngine kind baseviews) processor in
      match Add c mgr1 with
      | (mgr2, Some cause) =>
          (mgr2, inl (Errorf "controller: cannot schedule controller" cause))
      | (mgr2, None) => (mgr2, inr c)
      end
  end.

(** [New] registers a new controller given by the source resource(s) the
    controller watches, a target resource the controller sends its output,
    and a processing pipeline. *)
Definition New (name : string) (mgr : Manager) (config : Config)
  (opts : Options) : Manager * (error + Controller) :=
  let processor :=
    match Processor opts with
    | Some p => p
    | None => processRequest
    end in
  (* sanity check *)
  if Nat.eqb (length (Sources config)) 0 then
    (mgr, inl (ErrNew "no source"))
  else if Target_eq_dec (ConfigTarget config) emptyTarget then
    (mgr, inl (ErrNew "no target"))
  else if Nat.ltb 1 (length (Sources config))
          && match Join (ConfigPipeline config) with
             | None => true
             | Some _ => false
             end
  then
    (mgr, inl (ErrNew
      "controllers defined on multiple base resources must specify a Join in the pipeline"))
  else register name mgr config processor.

(** ** [Controller.Start] *)

(** What the [select] of the loop receives next: a request from the
    watcher channel, or the closing of the context. *)
Inductive event : Type :=
| Receive (req : Request)
| Done.

(** How a run of [Start] over a finite schedule ends: it returned (nil),
    or it is blocked in [select] waiting for the next event. *)
Inductive outcome : Type :=
| Returned (err : option error)
| Blocked.

Fixpoint loop (c : Controller) (events : list event) (st : State)
  : State * outcome :=
  match events with
  | [] => (st, Blocked)
  | Receive req :: rest =>
      let st1 := logInfo 2 "processing request" "" st in
      let (st2, err) := processor c (config c) req st1 in
      let st3 :=
        match err with
        | Some e => logInfo 0 "error processing watch event" (ErrorString e) st2
        | None => st2
        end in
      loop c rest st3
  | Done :: _ =>
      (logInfo 2 "controller terminating" "" st, Returned None)
  end.

Definition Start (c : Controller) (events : list event) (st : State)
  : State * outcome :=
  loop c events (logInfo 0 "starting" "" st).

(** ** Vocabulary of the properties *)

(** The object [processRequest] builds for a request and, for an Added,
    Updated or Replaced event, fetches from the cluster. *)
Definition fetched (req : Request) (st : State) : xerror + Object :=
  let obj := NewObject (GVK req) (Namespace req) (Name req) in
  if fetches (EventType req)
  then ClientGet (manager st) (Cache.mkKey (Namespace req) (Name req)) obj
  else inr obj.

(** All the writes of [deltas] succeed, taking the manager from [mgr] to
    [mgr']. *)
Inductive writesOk (t : Target) :
  Manager -> list Delta -> Manager -> Prop :=
| writesOk_nil : forall mgr, writesOk t mgr [] mgr
| writesOk_cons : forall mgr mgr1 mgr' d deltas,
    TargetWrite t d mgr = (mgr1, None) ->
    writesOk t mgr1 deltas mgr' ->
    writesOk t mgr (d :: deltas) mgr'.

(** The reading under which every delta the pipeline yields is handed to
    [target.Write]. *)
Definition writesEveryDelta : Prop :=
  forall (c : Config) (req : Request) (st : State) (obj : Object)
         (eng : Engine) (deltas : list Delta),
    fetched req st = inr obj ->
    PipelineEvaluate (ConfigPipeline c) (engine st)
      (mkDelta (EventType req) obj) = (eng, inr deltas) ->
    writes (fst (processRequest c req st)) = writes st ++ deltas.

(** The receive branch of the [select] in [Start]: one request is
    processed and its error, if any, is logged. *)
Definition handle (c : Controller) (st : State) (req : Request) : State :=
  let st1 := logInfo 2 "processing request" "" st in
  let (st2, err) := processor c (config c) req st1 in
  match err with
  | Some e => logInfo 0 "error processing watch event" (ErrorString e) st2
  | None => st2
  end.

End Runtime.

(** An event of the schedule for which [processRequest] does not call the
    client: the end of the context, or a Deleted or Sync request. *)
Definition fetchesNothing (ev : event) : Prop :=
  match ev with
  | Receive req => fetches (EventType req) = false
  | Done => True
  end.

End Controller.

(** ** A small runtime

    Sources and targets are kind names, an object is a number, the manager
    records the objects written to the cluster, the engine counts its
    evaluations.  The pipeline fails on object 0 and fans every other
    object [n] out into [n] and [n + 1]; the target refuses object 1. *)
Module Small.
Import Controller.

Local Open Scope string_scope.
Local Open Scope list_scope.

Definition Config := Controller.Config string string unit unit.
Definition State := Controller.State nat nat (list nat).
Definition Delta := Controller.Delta nat.

Definition NewObject (_ : Cache.GroupVersionKind) (_ name : string) : nat :=
  String.length name.

Definition ClientGet (_ : list nat) (_ : Cache.ObjectKey) (obj : nat)
  : string + nat :=
  inr obj.

Definition PipelineEvaluate (_ : Pipeline unit unit) (eng : nat) (d : Delta)
  : nat * (string + list Delta) :=
  match DeltaObject d with
  | O => (S eng, inl "expression error")
  | S n => (S eng, inr [mkDelta (Type_ d) (S n); mkDelta (Type_ d) (S (S n))])
  end.

Definition TargetWrite (_ : string) (d : Delta) (mgr : list nat)
  : list nat * option string :=
  if Nat.eqb (DeltaObject d) 1 then (mgr, Some "conflict")
  else (mgr ++ [DeltaObject d], None).

Definition processRequest
  : Config -> Request -> State -> State * option (error string) :=
  @Controller.processRequest string string unit unit nat string nat (list nat)
    NewObject ClientGet PipelineEvaluate TargetWrite.

Definition config : Config :=
  mkConfig ["ConfigMap"] (mkPipeline None None) "Deployment".

Definition controller :
  Controller string string unit unit nat string nat (list nat) :=
  mkController "c" "Deployment" config WatcherBufferSize 0 processRequest.

Definition gvk : Cache.GroupVersionKind := Cache.mkGVK "" "v1" "ConfigMap".

(** A request for object 1 and a request for object 0. *)
Definition request1 : Request := mkRequest gvk "default" "a" Added.

Definition state0 : State := mkState [] 0 [] [].


(** The rest of the runtime for [New]: the empty target is the empty kind
    name, a source's kind is its name in the core group, the runtime
    controller and the runtime source of a source are named after it,
    watches and scheduling succeed, a new engine has evaluated nothing. *)
Definition emptyTarget : string := "".

Definition TargetKind (t : string) : string := t.

Definition GetGVK (s : string) (_ : list nat)
  : string + Cache.GroupVersionKind :=
  inr (Cache.mkGVK "" "v1" s).

Definition NewTyped (name : string) (mgr : list nat)
  : list nat * (string + string) :=
  (mgr, inr name).

Definition GetSource (_ : list nat) (s : string) : string + string := inr s.

Definition Watch (_ _ : string) (mgr : list nat)
  : list nat * option string :=
  (mgr, None).

Definition NewDefaultEngine (_ : string) (_ : list Cache.GroupVersionKind)
  : nat :=
  0.

Definition Add
  (_ : Controller string string unit unit nat string nat (list nat))
  (mgr : list nat) : list nat * option string :=
  (mgr, None).

Definition New :=
  @Controller.New string string unit unit nat string nat (list nat)
    string string string_dec emptyTarget TargetKind GetGVK NewTyped
    GetSource Watch NewDefaultEngine Add NewObject ClientGet
    PipelineEvaluate TargetWrite.

(** A cluster in which no object is found, and the controller on it. *)
Definition ClientGone (_ : list nat) (_ : Cache.ObjectKey) (_ : nat)
  : string + nat :=
  inl "not found".

Definition controllerGone :
  Controller string string unit unit nat string nat (list nat) :=
  mkController "c" "Deployment" config WatcherBufferSize 0
    (@Controller.processRequest string string unit unit nat string nat
       (list nat) NewObject ClientGone PipelineEvaluate TargetWrite).

(** A request for the deletion of object 2. *)
Definition requestDeleted : Request := mkRequest gvk "default" "ab" Deleted.

End Small.

(** * Properties *)

(** ** Lists *)

Lemma lastn_length {A : Type} (n : nat) (l : list A) :
  length (lastn n l) = Nat.min n (length l).
Proof. unfold lastn. rewrite length_skipn. lia. Qed.

Lemma lastn_all {A : Type} (n : nat) (l : list A) :
  length l <= n -> lastn n l = l.
Proof.
  intros H. unfold lastn.
  replace (length l - n) with 0 by lia. reflexivity.
Qed.


Lemma lastn_snoc {A : Type} (n : nat) (l : list A) (x : A) :
  lastn (S n) (l ++ [x]) = lastn n l ++ [x].
Proof.
  unfold lastn. rewrite length_app. simpl.
  replace (length l + 1 - S n) with (length l - n) by lia.
  rewrite skipn_app.
  replace (length l - n - length l) with 0 by lia. reflexivity.
Qed.

Lemma lastn_app_drop {A : Type} (n : nat) (x y : list A) :
  n <= length y -> lastn n (x ++ y) = lastn n y.
Proof.
  intros H. unfold lastn. rewrite length_app, skipn_app.
  rewrite skipn_all2 by lia. simpl. f_equal. lia.
Qed.

Lemma lastn_lastn_app {A : Type} (n : nat) (a b : list A) :
  lastn n (lastn n a ++ b) = lastn n (a ++ b).
Proof.
  destruct (Nat.le_gt_cases (length a) n) as [H|H].
  - rewrite (@lastn_all _ n a H). reflexivity.
  - rewrite <- (firstn_skipn (length a - n) a) at 2.
    rewrite <- app_assoc.
    rewrite (@lastn_app_drop _ n (firstn (length a - n) a)).
    + reflexivity.
    + rewrite length_app, length_skipn. lia.
Qed.

Lemma lastn_app_keep {A : Type} (n : nat) (l es : list A) :
  lastn (n + length es) (l ++ es) = lastn n l ++ es.
Proof.
  unfold lastn. rewrite length_app, skipn_app.
  replace (length l + length es - (n + length es)) with (length l - n) by lia.
  replace (length l - n - length l) with 0 by lia. reflexivity.
Qed.

(** ** The error reporter *)
Module ReporterSpec.
Import Reporter.

Section ErrorStack.

Variable error : Type.
Variable intervalPassed : nat -> bool.

Abbreviation reporter := (errorReporter error).
Abbreviation Push' := (Push intervalPassed).
Abbreviation run' := (run intervalPassed).

(** The stack a [Push] leaves. *)
Lemma errorStack_Push (s : reporter) (e : error) (c : bool) :
  errorStack (fst (Push' s e c)) =
  if Nat.eqb (Size s) ErrorReporterStackSize
  then tl (errorStack s) ++ [e]
  else errorStack s ++ [e].
Proof. reflexivity. Qed.

Lemma errorStack_PushCritical (s : reporter) (e : error) :
  errorStack (fst (PushCriticalError intervalPassed s e)) =
  errorStack (fst (Push' s e true)).
Proof. reflexivity. Qed.

Lemma Size_Push_le (s : reporter) (e : error) (c : bool) :
  Size s <= ErrorReporterStackSize ->
  Size (fst (Push' s e c)) <= ErrorReporterStackSize.
Proof.
  intros H. unfold Size in *. rewrite errorStack_Push. unfold Size.
  destruct (Nat.eqb_spec (length (errorStack s)) ErrorReporterStackSize) as [E|E];
    rewrite length_app; simpl; unfold ErrorReporterStackSize in *.
  - destruct (errorStack s); simpl in *; lia.
  - lia.
Qed.

Lemma Size_Pop_le (s : reporter) : Size (Pop s) <= Size s.
Proof.
  unfold Pop, Size, IsEmpty.
  destruct (Nat.eqb_spec (length (errorStack s)) 0); simpl; [lia|].
  destruct (errorStack s) as [|a l] using rev_ind; [simpl in *; lia|].
  rewrite removelast_last, length_app. simpl. lia.
Qed.

Lemma Size_step_le (s : reporter) (o : op error) :
  Size s <= ErrorReporterStackSize ->
  Size (step intervalPassed s o) <= ErrorReporterStackSize.
Proof.
  intros H. destruct o as [e c|e|e|].
  - exact (Size_Push_le s e c H).
  - exact (Size_Push_le s e false H).
  - exact (Size_Push_le s e true H).
  - pose proof (Size_Pop_le s). simpl. lia.
Qed.

Lemma Size_run_le (ops : list (op error)) (s : reporter) :
  Size s <= ErrorReporterStackSize ->
  Size (run' ops s) <= ErrorReporterStackSize.
Proof.
  revert s. induction ops as [|o ops IH]; intros s H; simpl; [exact H|].
  apply IH, Size_step_le, H.
Qed.

Lemma Top_snoc (s : reporter) (l : list error) (e : error) :
  errorStack s = l ++ [e] -> Top s = Some e.
Proof.
  intros E. unfold Top, IsEmpty. rewrite E, length_app. simpl.
  replace (length l + 1) with (S (length l)) by lia. simpl.
  rewrite Nat.sub_0_r, nth_error_app2, Nat.sub_diag by lia. reflexivity.
Qed.

Lemma Top_Push (s : reporter) (e : error) (c : bool) :
  Top (fst (Push' s e c)) = Some e.
Proof.
  pose proof (errorStack_Push s e c) as E.
  destruct (Nat.eqb (Size s) ErrorReporterStackSize);
    eapply Top_snoc; exact E.
Qed.



End ErrorStack.

(** *** [trim] *)

Lemma length_substring (s : string) :
  forall n m, n + m <= String.length s ->
              String.length (substring n m s) = m.
Proof.
  induction s as [|c s IH]; intros n m H; simpl in *.
  - destruct n, m; simpl; lia.
  - destruct n as [|n].
    + destruct m as [|m]; simpl; [reflexivity|]. rewrite IH; lia.
    + apply IH. lia.
Qed.

Lemma length_append (a b : string) :
  String.length (a ++ b) = String.length a + String.length b.
Proof. induction a as [|c a IH]; simpl; [reflexivity|]. now rewrite IH. Qed.

(** A message of at most 245 bytes is returned as it is. *)
Lemma trim_short (s : string) :
  String.length s <= 245 -> trim s = s.
Proof.
  intros H. unfold trim.
  replace (2 * TrimPrefixSuffixLen + 5) with 245 by reflexivity.
  destruct (Nat.leb_spec (String.length s) 245); [reflexivity|lia].
Qed.

(** A longer message keeps its first 119 bytes and its last 120 bytes
    around the marker: 244 bytes in all. *)
Lemma trim_long (s : string) :
  245 < String.length s ->
  trim s = (substring 0 119 s ++ "[...]"
            ++ substring (String.length s - 120) 120 s)%string
  /\ String.length (trim s) = 244.
Proof.
  intros H. unfold trim.
  replace (2 * TrimPrefixSuffixLen + 5) with 245 by reflexivity.
  replace (TrimPrefixSuffixLen - 1) with 119 by reflexivity.
  unfold TrimPrefixSuffixLen.
  destruct (Nat.leb_spec (String.length s) 245); [lia|].
  split; [reflexivity|].
  rewrite !length_append, !length_substring by lia. reflexivity.
Qed.

(** C8: on the 246-byte message [trim] keeps 119 bytes of the prefix, not
    120: the byte [b] at position 120 is lost, the result has 244 bytes
    and differs from the 120 + 5 + 120 = 245 byte abbreviation. *)
Theorem trim_keeps_119_prefix_bytes :
  String.length longMessage = 246
  /\ trim longMessage
     = (repeatChar "a" 119 ++ "[...]" ++ repeatChar "d" 120)%string
  /\ String.length (trim longMessage) = 244
  /\ documentedTrim longMessage
     = (repeatChar "a" 119 ++ "b" ++ "[...]" ++ repeatChar "d" 120)%string
  /\ String.length (documentedTrim longMessage) = 245
  /\ trim longMessage <> documentedTrim longMessage.
Proof.
  assert (E1 : trim longMessage
               = (repeatChar "a" 119 ++ "[...]" ++ repeatChar "d" 120)%string)
    by (vm_compute; reflexivity).
  assert (E2 : documentedTrim longMessage
               = (repeatChar "a" 119 ++ "b" ++ "[...]"
                  ++ repeatChar "d" 120)%string)
    by (vm_compute; reflexivity).
  repeat split; try (vm_compute; reflexivity); try assumption.
  intros E. apply (f_equal String.length) in E.
  vm_compute in E. discriminate E.
Qed.

(** *** More on the stack, the critical flag and the notifications *)

Section More.

Variable error : Type.
Variable ip : nat -> bool.

Lemma run_app (a b : list (op error)) (s : errorReporter error) :
  run ip (a ++ b) s = run ip b (run ip a s).
Proof. apply fold_left_app. Qed.

Lemma errorStack_push_lastn (s : errorReporter error) (e : error) (c : bool) :
  Size s <= ErrorReporterStackSize ->
  errorStack (fst (Push ip s e c))
  = lastn ErrorReporterStackSize (errorStack s ++ [e]).
Proof.
  intros H. rewrite errorStack_Push. unfold Size, ErrorReporterStackSize in *.
  destruct (Nat.eqb_spec (length (errorStack s)) 10) as [E|E].
  - change 10 with (S 9). rewrite lastn_snoc. f_equal.
    unfold lastn. rewrite E. reflexivity.
  - rewrite lastn_all; [reflexivity|]. rewrite length_app. simpl. lia.
Qed.

Lemma errorStack_pushes (es : list error) :
  forall s : errorReporter error,
    Size s <= ErrorReporterStackSize ->
    errorStack (run ip (map (@OpPushError error) es) s)
    = lastn ErrorReporterStackSize (errorStack s ++ es).
Proof.
  induction es as [|e es IH]; intros s H.
  - simpl. rewrite app_nil_r. symmetry. now apply lastn_all.
  - change (run ip (map (@OpPushError error) (e :: es)) s)
      with (run ip (map (@OpPushError error) es) (fst (Push ip s e false))).
    rewrite IH by (apply Size_Push_le; exact H).
    rewrite errorStack_push_lastn by exact H.
    rewrite lastn_lastn_app, <- app_assoc. reflexivity.
Qed.

Lemma errorStack_Pop (s : errorReporter error) :
  errorStack (Pop s) = firstn (Size s - 1) (errorStack s).
Proof.
  unfold Pop, IsEmpty, Size.
  destruct (Nat.eqb_spec (length (errorStack s)) 0) as [E|E].
  - rewrite E. simpl. apply length_zero_iff_nil in E. now rewrite E.
  - simpl. rewrite removelast_firstn_len.
    replace (pred (length (errorStack s))) with (length (errorStack s) - 1) by lia.
    reflexivity.
Qed.

Lemma errorStack_pops (n : nat) :
  forall s : errorReporter error,
    errorStack (run ip (repeat OpPop n) s)
    = firstn (Size s - n) (errorStack s).
Proof.
  induction n as [|n IH]; intros s; simpl.
  - rewrite Nat.sub_0_r. unfold Size. symmetry. apply firstn_all.
  - rewrite IH. unfold Size. rewrite errorStack_Pop. unfold Size.
    rewrite firstn_firstn, length_firstn. f_equal. lia.
Qed.


Lemma critical_step (s : errorReporter error) (o : op error) :
  IsCritical (step ip s o) = IsCritical s || isCriticalPush o.
Proof.
  destruct o; unfold IsCritical; simpl;
    try (now rewrite orb_false_r); try (now rewrite orb_true_r).
  unfold Pop. destruct (IsEmpty s); simpl; now rewrite orb_false_r.
Qed.

Lemma critical_run (ops : list (op error)) :
  forall s : errorReporter error,
    IsCritical (run ip ops s) = IsCritical s || existsb (@isCriticalPush error) ops.
Proof.
  induction ops as [|o ops IH]; intros s; simpl.
  - now rewrite orb_false_r.
  - rewrite IH, critical_step, orb_assoc. reflexivity.
Qed.

Lemma notify_step (s : errorReporter error) (o : op error) :
  ratelimiter (step ip s o)
  = ratelimiter s + length (pushed [o])
  /\ errorChan (step ip s o)
     = match errorChan s with
       | Some sent => Some (sent ++ letThrough ip (ratelimiter s) (pushed [o]))
       | None => None
       end.
Proof.
  destruct o as [e c|e|e|]; simpl.
  1-3: split; [lia|];
       destruct (Nat.ltb (ratelimiter s) First || ip (ratelimiter s));
       destruct (errorChan s); rewrite ?app_nil_r; reflexivity.
  unfold Pop. destruct (IsEmpty s); simpl;
    (split; [lia|]); destruct (errorChan s); try reflexivity;
    now rewrite app_nil_r.
Qed.

Lemma pushed_cons (o : op error) (ops : list (op error)) :
  pushed (o :: ops) = pushed [o] ++ pushed ops.
Proof. simpl. destruct (pushedError o); reflexivity. Qed.

Lemma letThrough_app (a b : list error) :
  forall k, letThrough ip k (a ++ b)
            = letThrough ip k a ++ letThrough ip (k + length a) b.
Proof.
  induction a as [|e a IH]; intros k; simpl.
  - now rewrite Nat.add_0_r.
  - rewrite IH. replace (S k + length a) with (k + S (length a)) by lia.
    destruct (Nat.ltb k First || ip k); reflexivity.
Qed.

Lemma notify_run (ops : list (op error)) :
  forall s : errorReporter error,
    ratelimiter (run ip ops s) = ratelimiter s + length (pushed ops)
    /\ errorChan (run ip ops s)
       = match errorChan s with
         | Some sent => Some (sent ++ letThrough ip (ratelimiter s) (pushed ops))
         | None => None
         end.
Proof.
  induction ops as [|o ops IH]; intros s.
  - simpl. split; [lia|]. destruct (errorChan s); [now rewrite app_nil_r|reflexivity].
  - change (run ip (o :: ops) s) with (run ip ops (step ip s o)).
    destruct (IH (step ip s o)) as [R C]. destruct (notify_step s o) as [R1 C1].
    rewrite R, C, R1, C1, (pushed_cons o ops), length_app. split; [lia|].
    destruct (errorChan s); [|reflexivity].
    rewrite letThrough_app, app_assoc. reflexivity.
Qed.

Lemma letThrough_first (es : list error) :
  forall k, firstn (First - k) (letThrough ip k es) = firstn (First - k) es.
Proof.
  unfold First.
  induction es as [|e es IH]; intros k.
  - reflexivity.
  - cbn [letThrough]. unfold First.
    destruct (Nat.ltb_spec k 3) as [H|H].
    + cbn [orb]. replace (3 - k) with (S (3 - S k)) by lia.
      cbn [firstn]. now rewrite IH.
    + replace (3 - k) with 0 by lia. reflexivity.
Qed.

Lemma letThrough_sub (es : list error) :
  forall k, length (letThrough ip k es) <= length es
            /\ incl (letThrough ip k es) es.
Proof.
  induction es as [|e es IH]; intros k; simpl.
  - split; [lia|apply incl_refl].
  - destruct (IH (S k)) as [L I].
    destruct (Nat.ltb k First || ip k); simpl; split; try lia.
    + apply incl_cons; [now left|]. now apply incl_tl.
    + now apply incl_tl.
Qed.

End More.

Lemma trim_length (s : string) : String.length (trim s) <= 245.
Proof.
  destruct (Nat.le_gt_cases (String.length s) 245) as [H|H].
  - now rewrite trim_short.
  - destruct (trim_long s H) as [_ E]. rewrite E. lia.
Qed.

Lemma trim_idempotent (s : string) : trim (trim s) = trim s.
Proof. apply trim_short, trim_length. Qed.

(** *** The stack as a bounded LIFO *)

Section Bounded.

Variable error : Type.
Variable ip : nat -> bool.





End Bounded.




(** X1: pushing [n] errors and popping [n] times does not restore the
    stack when it overflowed: from any reachable reporter, what remains is
    the newest [10 - n] of the entries held before (all of them when they
    fit), so the entries evicted by the pushes are lost for good. *)
Theorem pushes_then_pops_keep_newest :
  forall (error : Type) (intervalPassed : nat -> bool)
         (ch : option (list error)) (ops : list (op error))
         (es : list error),
    let s := run intervalPassed ops (NewErrorReporter ch) in
    errorStack
      (run intervalPassed
         (map (@OpPushError error) es ++ repeat OpPop (length es)) s)
    = lastn (ErrorReporterStackSize - length es) (errorStack s).
Proof.
  intros error ip ch ops es s.
  assert (Hs : Size s <= ErrorReporterStackSize).
  { apply Size_run_le. unfold Size. simpl. unfold ErrorReporterStackSize. lia. }
  rewrite run_app, errorStack_pops. unfold Size at 1.
  rewrite errorStack_pushes by exact Hs.
  unfold Size, ErrorReporterStackSize in *.
  rewrite lastn_length, length_app.
  destruct (Nat.le_gt_cases 10 (length es)) as [H|H].
  - replace (Nat.min 10 (length (errorStack s) + length es) - length es)
      with 0 by lia.
    replace (10 - length es) with 0 by lia.
    simpl. unfold lastn. rewrite Nat.sub_0_r. now rewrite skipn_all.
  - replace 10 with ((10 - length es) + length es) at 2 by lia.
    rewrite lastn_app_keep.
    replace (Nat.min 10 (length (errorStack s) + length es) - length es)
      with (length (lastn (10 - length es) (errorStack s)) + 0)
      by (rewrite lastn_length; lia).
    rewrite firstn_app_2. simpl. now rewrite app_nil_r.
Qed.

(** X2: the critical flag is set by [PushCriticalError] only and is never
    cleared: after any sequence of operations on a new reporter it tells
    whether a [PushCriticalError] occurred.  [Push] ignores its [critical]
    argument, and no later operation resets the flag. *)
Theorem critical_flag_is_sticky :
  forall (error : Type) (intervalPassed : nat -> bool)
         (ch : option (list error)) (ops : list (op error)),
    let s := run intervalPassed ops (NewErrorReporter ch) in
    IsCritical s = existsb (@isCriticalPush error) ops
    /\ (forall e c, IsCritical (fst (Push intervalPassed s e c)) = IsCritical s)
    /\ (forall e, IsCritical (fst (PushCriticalError intervalPassed s e)) = true)
    /\ (forall more,
          IsCritical s = true -> IsCritical (run intervalPassed more s) = true).
Proof.
  intros error ip ch ops s. split; [|split; [|split]].
  - unfold s. rewrite critical_run. reflexivity.
  - reflexivity.
  - reflexivity.
  - intros more H. rewrite critical_run, H. reflexivity.
Qed.

(** X3: a reporter without channel never sends; with a channel, the errors
    sent are those of the pushes the limiter lets through, in push order:
    the first three pushes are always sent, nothing is sent twice or out
    of thin air, and the limiter counts one call per push (pops do not
    count). *)
Theorem notifications_are_rate_limited :
  forall (error : Type) (intervalPassed : nat -> bool)
         (ch : option (list error)) (ops : list (op error)),
    errorChan (run intervalPassed ops (NewErrorReporter None)) = None
    /\ errorChan (run intervalPassed ops (NewErrorReporter (Some [])))
       = Some (letThrough intervalPassed 0 (pushed ops))
    /\ firstn First (letThrough intervalPassed 0 (pushed ops))
       = firstn First (pushed ops)
    /\ length (letThrough intervalPassed 0 (pushed ops))
       <= length (pushed ops)
    /\ incl (letThrough intervalPassed 0 (pushed ops)) (pushed ops)
    /\ ratelimiter (run intervalPassed ops (NewErrorReporter ch))
       = length (pushed ops).
Proof.
  intros error ip ch ops.
  split; [exact (proj2 (notify_run ip ops (NewErrorReporter None)))|].
  split; [exact (proj2 (notify_run ip ops (NewErrorReporter (Some []))))|].
  split; [exact (letThrough_first ip (pushed ops) 0)|].
  split; [exact (proj1 (letThrough_sub ip (pushed ops) 0))|].
  split; [exact (proj2 (letThrough_sub ip (pushed ops) 0))|].
  exact (proj1 (notify_run ip ops (NewErrorReporter ch))).
Qed.

(** X4: [Report] has one line per stacked error, oldest first, each the
    trimmed message of its error and at most 245 bytes long; trimming a
    trimmed message changes nothing. *)
Theorem Report_lines_are_bounded :
  forall (error : Type) (msg : error -> string) (s : errorReporter error),
    length (Report msg s) = Size s
    /\ (forall i e, nth_error (errorStack s) i = Some e ->
                    nth_error (Report msg s) i = Some (trim (msg e)))
    /\ Forall (fun line => String.length line <= 245) (Report msg s)
    /\ (forall m, String.length (trim m) <= 245 /\ trim (trim m) = trim m).
Proof.
  intros error msg s. unfold Report, Size.
  split; [apply length_map|]. split.
  - intros i e H. rewrite nth_error_map, H. reflexivity.
  - split.
    + apply Forall_forall. intros line Hin.
      apply in_map_iff in Hin. destruct Hin as [e [<- _]]. apply trim_length.
    + intros m. split; [apply trim_length|apply trim_idempotent].
Qed.

End ReporterSpec.

(** ** The fake runtime cache *)
Module CacheSpec.
Import Cache.

(** C9: [Get] ignores the lookup key.  With an object in the store, [Get]
    succeeds for every key (also one that is not the identity of the stored
    object) and hands out a deep copy of the stored object; it returns an
    error exactly when the store is empty, and that error is NotFound; a
    [Delete] empties the store whatever object is passed, so a [Get] after
    it is NotFound. *)
Theorem FakeRuntimeCache_Get_ignores_key :
  forall (Object : Type) (GVKOf : Object -> GroupVersionKind)
         (KeyOf : Object -> ObjectKey) (DeepCopy : Object -> Object)
         (c : FakeRuntimeCache Object) (key : ObjectKey) (obj : Object),
    (forall stored,
        Store c = Some stored ->
        Get GVKOf DeepCopy c key obj = (DeepCopy stored, None)
        /\ (key <> KeyOf stored ->
            Get GVKOf DeepCopy c key obj = (DeepCopy stored, None)))
    /\ (Store c = None <->
        exists e, snd (Get GVKOf DeepCopy c key obj) = Some e
                  /\ IsNotFound e = true)
    /\ (Store c = None <-> snd (Get GVKOf DeepCopy c key obj) <> None)
    /\ (forall any,
          Store (fst (Delete c any)) = None
          /\ exists e,
               Get GVKOf DeepCopy (fst (Delete c any)) key obj = (obj, Some e)
               /\ IsNotFound e = true)
    /\ (forall new,
          Get GVKOf DeepCopy (fst (Upsert DeepCopy c new)) key obj
          = (DeepCopy (DeepCopy new), None)).
Proof.
  intros Object GVKOf KeyOf DeepCopy c key obj.
  unfold Get, Delete, Upsert. simpl.
  destruct (Store c) as [stored|] eqn:E; simpl.
  - split; [intros st H; injection H as <-; auto|].
    split; [split; [discriminate|intros [e [H _]]; discriminate]|].
    split; [split; [discriminate|intros H; now elim H]|].
    split; [|reflexivity].
    intros _. split; [reflexivity|]. eexists. split; reflexivity.
  - split; [intros st H; discriminate|].
    split; [split; [intros _; eexists; split; reflexivity|reflexivity]|].
    split; [split; [discriminate|reflexivity]|].
    split; [|reflexivity].
    intros _. split; [reflexivity|]. eexists. split; reflexivity.
Qed.

Lemma applyOps_keeps_settings {Object : Type} (DeepCopy : Object -> Object)
  (ops : list (storeOp Object)) :
  forall c : FakeRuntimeCache Object,
    InformersByGVK (applyOps DeepCopy ops c) = InformersByGVK c
    /\ Error (applyOps DeepCopy ops c) = Error c
    /\ Synced (applyOps DeepCopy ops c) = Synced c.
Proof.
  induction ops as [|o ops IH]; intros c; simpl; [auto|].
  destruct (IH (applyOp DeepCopy c o)) as (I & E & S).
  unfold applyOps in *. rewrite I, E, S. destruct o; auto.
Qed.

(** X5: the fake cache is a store of one object that only remembers its
    last write.  After any sequence of upserts and deletes the store holds
    a copy of the object of the last operation if that was an upsert, and
    nothing if it was a delete, whatever came before; upserting the same
    object twice is the same as upserting it once; [List] appends the one
    stored object or nothing; and no write touches the informers, the
    configured error or the sync flag. *)
Theorem FakeRuntimeCache_remembers_last_write :
  forall (Object : Type)
         (DeepCopy : Object -> Object) (c : FakeRuntimeCache Object)
         (ops : list (storeOp Object)) (obj : Object)
         (items : list Object),
    Store (applyOps DeepCopy (ops ++ [StoreUpsert obj]) c)
      = Some (DeepCopy obj)
    /\ Store (applyOps DeepCopy (ops ++ [StoreDelete obj]) c) = None
    /\ applyOps DeepCopy (ops ++ [StoreUpsert obj; StoreUpsert obj]) c
       = applyOps DeepCopy (ops ++ [StoreUpsert obj]) c
    /\ List DeepCopy (applyOps DeepCopy (ops ++ [StoreUpsert obj]) c) items
       = (items ++ [DeepCopy (DeepCopy obj)], None)
    /\ List DeepCopy (applyOps DeepCopy (ops ++ [StoreDelete obj]) c) items
       = (items, None)
    /\ length (fst (List DeepCopy (applyOps DeepCopy ops c) items))
       <= S (length items)
    /\ WaitForCacheSync (applyOps DeepCopy ops c) = WaitForCacheSync c
    /\ Start (applyOps DeepCopy ops c) = Start c.
Proof.
  intros Object DeepCopy c ops obj items.
  unfold applyOps. rewrite !fold_left_app. simpl.
  repeat split.
  - fold (applyOps DeepCopy ops c).
    unfold List. destruct (Store (applyOps DeepCopy ops c)); simpl;
      [rewrite length_app; simpl; lia|lia].
  - fold (applyOps DeepCopy ops c). unfold WaitForCacheSync.
    now destruct (applyOps_keeps_settings DeepCopy ops c) as (_ & _ & ->).
  - fold (applyOps DeepCopy ops c). unfold Start.
    now destruct (applyOps_keeps_settings DeepCopy ops c) as (_ & -> & _).
Qed.

End CacheSpec.

(** ** The expression language *)
Module PipelineSpec.
Import Pipeline.

Local Open Scope string_scope.

(** *** [@list] and [unpackList] *)

(** [unpackList] looks at the first element only. *)
Lemma unpackList_cases (L : list Value) :
  unpackList (VList L) =
  match L with
  | VList vs :: _ => vs
  | _ => L
  end.
Proof. destruct L as [|[] rest]; reflexivity. Qed.

Lemma unpackList_flat (L : list Value) :
  forallb (fun v => negb (isList v)) L = true -> unpackList (VList L) = L.
Proof.
  rewrite unpackList_cases. destruct L as [|[] rest]; simpl; congruence.
Qed.

(** C4, as stated, fails: a list of lists with two outer elements is not
    returned intact, it is replaced by its first row.  The literal
    [[[1,2],[3,4]]] evaluates its elements to the two rows and [@list]
    returns [[1,2]]. *)
Lemma unpackList_drops_second_row :
  forallb isList twoRows = true
  /\ length twoRows = 2
  /\ unpackList (VList twoRows) = [VInt 1; VInt 2]
  /\ UnmarshalJSON twoRowsJSON
     = Ok (lit "@list" (LExprs [ints [1; 2]%Z; ints [3; 4]%Z]))
  /\ mapM (fun exp => Evaluate subjectResolver keySetter noMatch 2 exp
                        (mkCtx VNil VNil)) [ints [1; 2]%Z; ints [3; 4]%Z]
     = Ok twoRows
  /\ Evaluate subjectResolver keySetter noMatch 3
       (lit "@list" (LExprs [ints [1; 2]%Z; ints [3; 4]%Z])) (mkCtx VNil VNil)
     = Ok (VList [VInt 1; VInt 2])
  /\ ~ (forall L : list Value,
          forallb isList L = true -> 2 <= length L ->
          unpackList (VList L) = L).
Proof.
  repeat split.
  intros H. specialize (H twoRows eq_refl (le_n 2)). discriminate H.
Qed.

(** C4, amended: the result of [@list] is the first element of the
    evaluated list [L] whenever [L] is not empty and that element is a
    list, whatever follows it (so a list of lists with one outer element
    loses its outer wrap); in every other case, [L] empty or its first
    element not a list, [L] is returned with all its elements.  [@list]
    returns [unpackList] of the values of its elements, for a literal list
    and for a stacked argument. *)
Theorem list_unpacks_first_element :
  forall (GetJSONPath : evalCtx -> string -> result Value)
         (SetJSONPath :
            evalCtx -> string -> Value -> Unstructured -> result Unstructured)
         (MatchLabels : Unstructured -> Unstructured -> result Value),
    (forall vs rest, unpackList (VList (VList vs :: rest)) = vs)
    /\ (forall vs, unpackList (VList [VList vs]) = vs)
    /\ unpackList (VList []) = []
    /\ (forall first rest,
          isList first = false ->
          unpackList (VList (first :: rest)) = first :: rest)
    /\ (forall L,
          forallb (fun v => negb (isList v)) L = true ->
          unpackList (VList L) = L)
    /\ (forall fuel es ctx,
          Evaluate GetJSONPath SetJSONPath MatchLabels (S fuel)
            (mkExpression "@list" None (LExprs es)) ctx
          = (L <- mapM (fun exp =>
                          Evaluate GetJSONPath SetJSONPath MatchLabels
                            fuel exp ctx) es ;;
             Ok (VList (unpackList (VList L)))))
    /\ (forall fuel arg lit ctx L,
          Evaluate GetJSONPath SetJSONPath MatchLabels fuel arg ctx
            = Ok (VList L) ->
          Evaluate GetJSONPath SetJSONPath MatchLabels (S fuel)
            (mkExpression "@list" (Some arg) lit) ctx
          = Ok (VList (unpackList (VList L)))).
Proof.
  intros G S M.
  split; [reflexivity|]. split; [reflexivity|]. split; [reflexivity|].
  split; [intros [] rest H; (reflexivity || discriminate H)|].
  split; [exact unpackList_flat|].
  split; [reflexivity|].
  intros fuel arg lit ctx L H. cbn. rewrite H. reflexivity.
Qed.

(** *** Parsing the empty string *)

Ltac destruct_match_in H :=
  match type of H with
  | context [match ?x with _ => _ end] => destruct x eqn:?
  | context [if ?x then _ else _] => destruct x eqn:?
  end.

(** A successful parse that yields a string literal without argument comes
    from a non-empty JSON string. *)
Lemma UnmarshalJSON_string_literal (b : json) (op s : string) :
  UnmarshalJSON b = Ok (mkExpression op None (LString s)) ->
  b = JString s /\ s <> "" /\ op = "@string".
Proof.
  intros H.
  destruct b as [ | bv | z | f | v | l | m]; cbn in H; try discriminate H.
  - repeat (destruct_match_in H; cbn in H; try discriminate H).
  - repeat (destruct_match_in H; cbn in H; try discriminate H).
  - destruct (String.eqb_spec v "") as [E|E]; cbn in H; [discriminate H|].
    injection H as <- <-. auto.
  - repeat (destruct_match_in H; cbn in H; try discriminate H).
  - repeat (destruct_match_in H; cbn in H; try discriminate H).
Qed.

(** C10: the JSON document that consists of the empty string is refused
    with an unmarshal error: the string attempt only accepts a non-empty
    string and the list and map attempts do not accept a string.  Every
    non-empty JSON string parses to the [@string] terminal, and only a
    non-empty JSON string parses to a string literal. *)
Theorem UnmarshalJSON_empty_string_fails :
  UnmarshalJSON (JString "") = Err (ErrUnmarshal "expression" (JString ""))
  /\ (forall s,
        s <> "" ->
        UnmarshalJSON (JString s) = Ok (mkExpression "@string" None (LString s)))
  /\ (forall b op s,
        UnmarshalJSON b = Ok (mkExpression op None (LString s)) ->
        b = JString s /\ s <> "" /\ op = "@string").
Proof.
  split; [reflexivity|]. split.
  - intros s H. cbn. destruct (String.eqb_spec s ""); [contradiction|reflexivity].
  - exact UnmarshalJSON_string_literal.
Qed.

(** *** The higher-order filter *)

(** C6: the expression [@filter: [{@gt: [$, 3]}, {@list: [1,2,3,4,5]}]],
    as [UnmarshalJSON] reads it, evaluates to the list [4, 5], in the
    order of the input and without error, in every context and for every
    recursion bound of at least 4, provided the JSON-path resolver binds
    the path [$] to the subject of the iteration. *)
Theorem filter_gt_3_evaluates_to_4_5 :
  forall (GetJSONPath : evalCtx -> string -> result Value)
         (SetJSONPath :
            evalCtx -> string -> Value -> Unstructured -> result Unstructured)
         (MatchLabels : Unstructured -> Unstructured -> result Value)
         (ctx : evalCtx) (fuel : nat),
    (forall c, GetJSONPath c "$" = Ok (subject c)) ->
    4 <= fuel ->
    UnmarshalJSON filterJSON = Ok filterExpression
    /\ Evaluate GetJSONPath SetJSONPath MatchLabels fuel filterExpression ctx
       = Ok (VList [VInt 4; VInt 5]).
Proof.
  intros G S M ctx fuel H Hfuel. split; [reflexivity|].
  destruct fuel as [|[|[|[|k]]]]; try lia. clear Hfuel.
  cbn. unfold condition. cbn. rewrite !H. cbn. reflexivity.
Qed.

Lemma filter_gt_3_witness :
  (forall c, subjectResolver c "$" = Ok (subject c))
  /\ 4 <= 4
  /\ UnmarshalJSON filterJSON = Ok filterExpression
  /\ Evaluate subjectResolver keySetter noMatch 4 filterExpression
       (mkCtx VNil VNil)
     = Ok (VList [VInt 4; VInt 5]).
Proof.
  split; [reflexivity|]. split; [apply le_n|].
  apply (@filter_gt_3_evaluates_to_4_5 subjectResolver keySetter noMatch
           (mkCtx VNil VNil) 4); [reflexivity|apply le_n].
Defined.

(** *** The JSON round trip *)

(** The parts of the coding that hold: scalars parse to the terminals, a
    single-key object whose key starts with [@] parses to that operator
    with its argument, and the bool, int and string terminals marshal back
    to the scalar they came from. *)
Lemma UnmarshalJSON_terminals :
  (forall b, UnmarshalJSON (JBool b) = Ok (lit "@bool" (LBool b)))
  /\ (forall z, inInt64 z = true ->
                UnmarshalJSON (JInt z) = Ok (lit "@int" (LInt z)))
  /\ (forall f, PrimFloat.is_finite f = true ->
                UnmarshalJSON (JFrac f) = Ok (lit "@float" (LFloat f)))
  /\ (forall s, s <> "" ->
                UnmarshalJSON (JString s) = Ok (lit "@string" (LString s)))
  /\ (forall op j e,
        startsWithAt op = true -> UnmarshalJSON j = Ok e ->
        UnmarshalJSON (JObject [(op, j)]) = Ok (operator op e)).
Proof.
  split; [reflexivity|].
  split; [intros z H; cbn; now rewrite H|].
  split; [intros f H; cbn; now rewrite H|].
  split.
  - intros s H. cbn.
    destruct (String.eqb_spec s ""); [contradiction|reflexivity].
  - intros op j e Hop Hj. cbn. rewrite Hj. cbn.
    destruct op as [|c op]; [discriminate Hop|].
    cbn in Hop. now rewrite Hop.
Qed.

Lemma MarshalJSON_terminals :
  (forall b, MarshalJSON (lit "@bool" (LBool b)) = Ok (JBool b))
  /\ (forall z, MarshalJSON (lit "@int" (LInt z)) = Ok (JInt z))
  /\ (forall s, MarshalJSON (lit "@string" (LString s)) = Ok (JString s)).
Proof. repeat split. Qed.

(** Every parsed [@any] operator marshals to [null]: the ["@any"] case of
    [MarshalJSON] writes the literal, which the parser leaves nil. *)
Lemma MarshalJSON_any (arg : Expression) :
  MarshalJSON (operator "@any" arg) = Ok JNull.
Proof. reflexivity. Qed.

(** C3: the round trip fails on [{"@any": [true, [1]]}].  The document
    parses to the [@any] operator, which marshals to [null]; [null]
    parses to the terminal [@bool false].  The parsed expression evaluates
    to [true] and the re-parsed one to [false], in every context and for
    every recursion bound of at least 3. *)
Theorem any_operator_does_not_round_trip :
  UnmarshalJSON anyJSON = Ok anyExpression
  /\ MarshalJSON anyExpression = Ok JNull
  /\ UnmarshalJSON JNull = Ok (lit "@bool" (LBool false))
  /\ (forall (GetJSONPath : evalCtx -> string -> result Value)
             (SetJSONPath :
                evalCtx -> string -> Value -> Unstructured ->
                result Unstructured)
             (MatchLabels : Unstructured -> Unstructured -> result Value)
             (ctx : evalCtx) (k : nat),
        Evaluate GetJSONPath SetJSONPath MatchLabels (3 + k)
          anyExpression ctx = Ok (VBool true)
        /\ Evaluate GetJSONPath SetJSONPath MatchLabels (3 + k)
             (lit "@bool" (LBool false)) ctx = Ok (VBool false)).
Proof.
  split; [reflexivity|]. split; [reflexivity|]. split; [reflexivity|].
  intros G S M ctx k. split; reflexivity.
Qed.

(** The [@list] and [@dict] operators are written without their op: the
    document [{"@list": 5}] parses to an expression that fails to evaluate
    (its argument is no list) and is written back as [5]. *)
Lemma list_operator_marshals_without_op :
  UnmarshalJSON (JObject [("@list", JInt 5)])
    = Ok (operator "@list" (lit "@int" (LInt 5)))
  /\ MarshalJSON (operator "@list" (lit "@int" (LInt 5))) = Ok (JInt 5)
  /\ UnmarshalJSON (JInt 5) = Ok (lit "@int" (LInt 5))
  /\ (forall GetJSONPath SetJSONPath MatchLabels ctx k,
        Evaluate GetJSONPath SetJSONPath MatchLabels (2 + k)
          (operator "@list" (lit "@int" (LInt 5))) ctx
        = Err (ErrExpression (operator "@list" (lit "@int" (LInt 5)))
                 (ErrNew "argument must be a list"))
        /\ Evaluate GetJSONPath SetJSONPath MatchLabels (2 + k)
             (lit "@int" (LInt 5)) ctx
           = Ok (VInt 5)).
Proof.
  split; [reflexivity|]. split; [reflexivity|]. split; [reflexivity|].
  intros G S M ctx k. split; reflexivity.
Qed.

(** The same round trip turns the float terminal of [1.0] into the int
    terminal of [1]: a float without fraction is written as an integer
    token.  The two expressions evaluate to different documents. *)
Lemma float_terminal_reparses_as_int :
  UnmarshalJSON (JFrac PrimFloat.one) = Ok (lit "@float" (LFloat PrimFloat.one))
  /\ MarshalJSON (lit "@float" (LFloat PrimFloat.one)) = Ok (JInt 1)
  /\ UnmarshalJSON (JInt 1) = Ok (lit "@int" (LInt 1))
  /\ (forall GetJSONPath SetJSONPath MatchLabels ctx k,
        Evaluate GetJSONPath SetJSONPath MatchLabels (1 + k)
          (lit "@float" (LFloat PrimFloat.one)) ctx
        = Ok (VFloat PrimFloat.one)
        /\ Evaluate GetJSONPath SetJSONPath MatchLabels (1 + k)
             (lit "@int" (LInt 1)) ctx
           = Ok (VInt 1))
  /\ DeepEqual (VFloat PrimFloat.one) (VInt 1) = false.
Proof.
  split; [vm_compute; reflexivity|]. split; [vm_compute; reflexivity|].
  split; [reflexivity|]. split; [|reflexivity].
  intros G S M ctx k. split; reflexivity.
Qed.

(** *** Parsing and marshalling *)

Local Open Scope list_scope.

Lemma mapM_Forall {A B : Type} (f : A -> result B) (P : B -> Prop)
  (l : list A) :
  Forall (fun x => forall y, f x = Ok y -> P y) l ->
  forall ys, mapM f l = Ok ys -> Forall P ys.
Proof.
  induction 1 as [|x l Hx Hl IH]; intros ys H; simpl in H.
  - injection H as <-. constructor.
  - destruct (f x) as [y| | |] eqn:E; simpl in H; try discriminate H.
    destruct (mapM f l) as [ys'| | |]; simpl in H; try discriminate H.
    injection H as <-. constructor; [now apply Hx|now apply IH].
Qed.

Lemma mapM_length {A B : Type} (f : A -> result B) (l : list A) :
  forall ys, mapM f l = Ok ys -> length ys = length l.
Proof.
  induction l as [|x l IH]; intros ys H; simpl in H.
  - now injection H as <-.
  - destruct (f x); simpl in H; try discriminate H.
    destruct (mapM f l); simpl in H; try discriminate H.
    injection H as <-. simpl. f_equal. now apply IH.
Qed.



Lemma hasKey_mapInsert {A : Type} (k0 k : string) (v : A)
  (m : list (string * A)) :
  hasKey k0 (mapInsert k v m) = String.eqb k0 k || hasKey k0 m.
Proof.
  unfold hasKey. induction m as [|[k' v'] m IH]; simpl.
  - reflexivity.
  - destruct (String.eqb_spec k k') as [->|N]; simpl.
    + now rewrite orb_assoc, orb_diag.
    + rewrite IH. now rewrite !orb_assoc, (orb_comm (k0 =? k') (k0 =? k)).
Qed.

Lemma distinctKeys_mapInsert {A : Type} (k : string) (v : A)
  (m : list (string * A)) :
  distinctKeys m = true -> distinctKeys (mapInsert k v m) = true.
Proof.
  induction m as [|[k' v'] m IH]; simpl; intros H.
  - reflexivity.
  - apply andb_true_iff in H. destruct H as [H1 H2].
    destruct (String.eqb_spec k k') as [->|N]; simpl.
    + now rewrite H1, H2.
    + fold (hasKey k' (mapInsert k v m)). rewrite hasKey_mapInsert.
      fold (hasKey k' m) in H1.
      apply negb_true_iff in H1. rewrite H1, orb_false_r.
      destruct (String.eqb_spec k' k) as [E|_]; [now elim N|]. simpl.
      now apply IH.
Qed.

Lemma Forall_mapInsert {A : Type} (P : string * A -> Prop) (k : string)
  (v : A) (m : list (string * A)) :
  P (k, v) -> Forall P m -> Forall P (mapInsert k v m).
Proof.
  intros Hv. induction 1 as [|[k' v'] m Hx Hm IH]; simpl.
  - now constructor.
  - destruct (String.eqb k k'); constructor; auto.
Qed.

Lemma mapOfBindings_spec {A : Type} (P : string * A -> Prop)
  (bs : list (string * A)) :
  Forall P bs ->
  Forall P (mapOfBindings bs) /\ distinctKeys (mapOfBindings bs) = true.
Proof.
  unfold mapOfBindings.
  assert (G : forall acc, Forall P bs -> Forall P acc ->
                          distinctKeys acc = true ->
              Forall P (fold_left (fun m kv => mapInsert (fst kv) (snd kv) m) bs acc)
              /\ distinctKeys (fold_left (fun m kv => mapInsert (fst kv) (snd kv) m) bs acc) = true).
  { induction bs as [|[k v] bs IH]; intros acc Hb Ha Hd; simpl; [auto|].
    inversion Hb; subst. apply IH; auto.
    - now apply Forall_mapInsert.
    - now apply distinctKeys_mapInsert. }
  intros H. apply G; auto.
Qed.

Lemma UnmarshalJSON_wellFormed (j : json) :
  forall e, UnmarshalJSON j = Ok e -> wellFormed e = true.
Proof.
  induction j as [ | b | z | f | s | l IH | m IH] using json_nested_ind;
    intros e H; cbn in H.
  - injection H as <-. reflexivity.
  - injection H as <-. reflexivity.
  - destruct (inInt64 z) eqn:Ez; [injection H as <-; cbn; now rewrite Ez|].
    destruct (PrimFloat.is_finite (floatOfZ z)) eqn:Ef;
      [injection H as <-; cbn; now rewrite Ef|discriminate H].
  - destruct (PrimFloat.is_finite f) eqn:Ef;
      [injection H as <-; cbn; now rewrite Ef|discriminate H].
  - destruct (String.eqb s "") eqn:Es; [discriminate H|].
    injection H as <-. cbn. now rewrite Es.
  - destruct (mapM UnmarshalJSON l) as [mv| | |] eqn:E; try discriminate H.
    injection H as <-. cbn.
    apply forallb_forall. apply Forall_forall.
    eapply mapM_Forall; [|exact E]. exact IH.
  - destruct (mapM _ m) as [bs| | |] eqn:E; cbn in H; try discriminate H.
    assert (Hbs : Forall (fun kv => wellFormed (snd kv) = true) bs).
    { eapply mapM_Forall; [|exact E].
      eapply Forall_impl; [|exact IH].
      intros [k x] Hx [k' y] Hy. cbn in *.
      destruct (UnmarshalJSON x) eqn:Ex; cbn in Hy; try discriminate Hy.
      injection Hy as <- <-. now apply Hx. }
    destruct (mapOfBindings_spec Hbs) as [Hcv Hd].
    assert (Hall : forallb (fun kv => wellFormed (snd kv)) (mapOfBindings bs) = true).
    { apply forallb_forall. now apply Forall_forall. }
    destruct (mapOfBindings bs) as [|[op exp] [|kv2 rest]] eqn:Ecv.
    + injection H as <-. reflexivity.
    + destruct op as [|c op]; [discriminate H|].
      destruct (Ascii.eqb c "@") eqn:Ec; injection H as <-; cbn.
      * rewrite Ec. cbn in Hall. now rewrite andb_true_r in Hall.
      * cbn in Hall. rewrite Hall, Ec. reflexivity.
    + injection H as <-. cbn -[distinctKeys]. cbn -[distinctKeys] in Hall.
      rewrite Hall, Hd. reflexivity.
Qed.

Lemma Forall_insertByKey {A : Type} (P : string * A -> Prop)
  (kv : string * A) (l : list (string * A)) :
  P kv -> Forall P l -> Forall P (insertByKey kv l).
Proof.
  intros Hk. induction 1 as [|x l Hx Hl IH]; simpl.
  - now constructor.
  - destruct (String.leb (fst kv) (fst x)); repeat constructor; auto.
Qed.

Lemma Forall_sortByKey {A : Type} (P : string * A -> Prop)
  (l : list (string * A)) :
  Forall P l -> Forall P (sortByKey l).
Proof.
  induction 1; simpl; [constructor|]. now apply Forall_insertByKey.
Qed.

Lemma insertByKey_map {A B : Type} (g : A -> B) (kv : string * A)
  (l : list (string * A)) :
  insertByKey (fst kv, g (snd kv)) (map (fun x => (fst x, g (snd x))) l)
  = map (fun x => (fst x, g (snd x))) (insertByKey kv l).
Proof.
  induction l as [|x l IH]; simpl; [reflexivity|].
  destruct (String.leb (fst kv) (fst x)); simpl; [reflexivity|].
  now rewrite IH.
Qed.

Lemma sortByKey_map {A B : Type} (g : A -> B) (l : list (string * A)) :
  sortByKey (map (fun x => (fst x, g (snd x))) l)
  = map (fun x => (fst x, g (snd x))) (sortByKey l).
Proof.
  induction l as [|x l IH]; simpl; [reflexivity|].
  unfold sortByKey in *. rewrite IH. apply insertByKey_map.
Qed.

Lemma length_insertByKey {A : Type} (kv : string * A) (l : list (string * A)) :
  length (insertByKey kv l) = S (length l).
Proof.
  induction l as [|x l IH]; simpl; [reflexivity|].
  destruct (String.leb (fst kv) (fst x)); simpl; [reflexivity|]. now rewrite IH.
Qed.

Lemma length_sortByKey {A : Type} (l : list (string * A)) :
  length (sortByKey l) = length l.
Proof.
  induction l as [|x l IH]; simpl; [reflexivity|].
  unfold sortByKey in *. now rewrite length_insertByKey, IH.
Qed.

Lemma hasKey_insertByKey {A : Type} (k : string) (kv : string * A)
  (l : list (string * A)) :
  hasKey k (insertByKey kv l) = String.eqb k (fst kv) || hasKey k l.
Proof.
  unfold hasKey. induction l as [|x l IH]; simpl; [reflexivity|].
  destruct (String.leb (fst kv) (fst x)); simpl; [reflexivity|].
  rewrite IH. now rewrite !orb_assoc, (orb_comm (k =? fst x) (k =? fst kv)).
Qed.

Lemma hasKey_sortByKey {A : Type} (k : string) (l : list (string * A)) :
  hasKey k (sortByKey l) = hasKey k l.
Proof.
  induction l as [|x l IH]; simpl; [reflexivity|].
  unfold sortByKey in *. rewrite hasKey_insertByKey, IH. reflexivity.
Qed.

Lemma distinctKeys_cons {A : Type} (kv : string * A) (l : list (string * A)) :
  distinctKeys (kv :: l) = negb (hasKey (fst kv) l) && distinctKeys l.
Proof. reflexivity. Qed.

Lemma hasKey_cons {A : Type} (k : string) (x : string * A)
  (l : list (string * A)) :
  hasKey k (x :: l) = String.eqb k (fst x) || hasKey k l.
Proof. reflexivity. Qed.

Lemma distinctKeys_insertByKey {A : Type} (kv : string * A)
  (l : list (string * A)) :
  distinctKeys (insertByKey kv l) = distinctKeys (kv :: l).
Proof.
  induction l as [|x l IH]; [reflexivity|].
  cbn [insertByKey]. destruct (String.leb (fst kv) (fst x)); [reflexivity|].
  rewrite (distinctKeys_cons x (insertByKey kv l)), IH, hasKey_insertByKey.
  rewrite !distinctKeys_cons, hasKey_cons.
  rewrite (String.eqb_sym (fst x) (fst kv)).
  destruct (fst kv =? fst x), (hasKey (fst x) l), (hasKey (fst kv) l),
    (distinctKeys l); reflexivity.
Qed.

Lemma distinctKeys_sortByKey {A : Type} (l : list (string * A)) :
  distinctKeys (sortByKey l) = distinctKeys l.
Proof.
  induction l as [|x l IH]; [reflexivity|].
  change (sortByKey (x :: l)) with (insertByKey x (sortByKey l)).
  rewrite distinctKeys_insertByKey, !distinctKeys_cons, hasKey_sortByKey, IH.
  reflexivity.
Qed.

Lemma hasKey_map {A B : Type} (g : A -> B) (k : string)
  (l : list (string * A)) :
  hasKey k (map (fun x => (fst x, g (snd x))) l) = hasKey k l.
Proof.
  induction l as [|x l IH]; [reflexivity|].
  cbn [map]. rewrite !hasKey_cons, IH. reflexivity.
Qed.

Lemma distinctKeys_map {A B : Type} (g : A -> B) (l : list (string * A)) :
  distinctKeys (map (fun x => (fst x, g (snd x))) l) = distinctKeys l.
Proof.
  induction l as [|x l IH]; [reflexivity|].
  cbn [map]. rewrite !distinctKeys_cons, IH, hasKey_map. reflexivity.
Qed.

Lemma operatorShaped_map {A B : Type} (g : A -> B) (l : list (string * A)) :
  operatorShaped (map (fun x => (fst x, g (snd x))) l) = operatorShaped l.
Proof. destruct l as [|[k v] [|y l]]; reflexivity. Qed.

Lemma operatorShaped_sortByKey {A : Type} (l : list (string * A)) :
  operatorShaped (sortByKey l) = operatorShaped l.
Proof.
  destruct l as [|x [|y l]]; try reflexivity.
  pose proof (length_sortByKey (x :: y :: l)) as L.
  destruct (sortByKey (x :: y :: l)) as [|a [|b r]]; try discriminate L.
  destruct a, x. reflexivity.
Qed.

Lemma mapInsert_fresh {A : Type} (k : string) (v : A) (m : list (string * A)) :
  hasKey k m = false -> mapInsert k v m = m ++ [(k, v)].
Proof.
  unfold hasKey. induction m as [|[k' v'] m IH]; simpl; intros H.
  - reflexivity.
  - apply orb_false_iff in H. destruct H as [H1 H2].
    rewrite H1, IH by exact H2. reflexivity.
Qed.

Lemma distinctKeys_app_cons {A : Type} (acc : list (string * A))
  (kv : string * A) (l : list (string * A)) :
  distinctKeys (acc ++ kv :: l) = true ->
  hasKey (fst kv) acc = false /\ distinctKeys ((acc ++ [kv]) ++ l) = true.
Proof.
  rewrite <- app_assoc. simpl. intros H. split; [|exact H].
  induction acc as [|a acc IH]; [reflexivity|].
  cbn [app] in H. rewrite distinctKeys_cons in H.
  apply andb_true_iff in H. destruct H as [H1 H2].
  rewrite hasKey_cons, (IH H2), orb_false_r.
  apply negb_true_iff in H1. unfold hasKey in H1. rewrite existsb_app in H1.
  apply orb_false_iff in H1. destruct H1 as [_ H1]. cbn [existsb] in H1.
  apply orb_false_iff in H1. destruct H1 as [H1 _].
  now rewrite String.eqb_sym.
Qed.

Lemma mapOfBindings_distinct {A : Type} (l : list (string * A)) :
  distinctKeys l = true -> mapOfBindings l = l.
Proof.
  unfold mapOfBindings.
  assert (G : forall acc, distinctKeys (acc ++ l) = true ->
              fold_left (fun m kv => mapInsert (fst kv) (snd kv) m) l acc
              = acc ++ l).
  { induction l as [|[k v] l IH]; intros acc H; simpl.
    - now rewrite app_nil_r.
    - destruct (distinctKeys_app_cons acc (k, v) l H) as [Hk Hd].
      simpl in Hk. rewrite (@mapInsert_fresh _ k v acc Hk), IH by exact Hd.
      now rewrite <- app_assoc. }
  intros H. exact (G [] H).
Qed.

Lemma mapM_total {A B : Type} (f : A -> result B) (l : list A) :
  Forall (fun x => exists y, f x = Ok y) l -> exists ys, mapM f l = Ok ys.
Proof.
  induction 1 as [|x l [y Hy] Hl [ys IH]]; simpl.
  - now eexists.
  - rewrite Hy, IH. simpl. now eexists.
Qed.

Lemma marshalMap_total (l : list (string * result json)) :
  Forall (fun kv => exists j, snd kv = Ok j) l ->
  exists bs, marshalMap l = Ok (JObject bs).
Proof.
  intros H. unfold marshalMap.
  destruct (@mapM_total _ _
              (fun kv : string * result json => j <- snd kv ;; Ok (fst kv, j))
              (sortByKey l)) as [bs E].
  - apply Forall_sortByKey. eapply Forall_impl; [|exact H].
    intros [k r] [j Hj]. simpl in *. rewrite Hj. simpl. now eexists.
  - rewrite E. simpl. now eexists.
Qed.

Lemma wellFormed_marshals (e : Expression) :
  wellFormed e = true -> exists j, MarshalJSON e = Ok j.
Proof.
  unfold MarshalJSON.
  induction e as [op arg l Ha Hl] using Expression_nested_ind. intros W.
  destruct arg as [a|]; cbn -[String.eqb] in W.
  - destruct l; try discriminate W.
    apply andb_true_iff in W. destruct W as [Wop Wa].
    destruct (Ha Wa) as [ja Ej].
    cbn -[String.eqb]. rewrite Ej. cbn -[String.eqb].
    repeat match goal with
           | |- context [if String.eqb ?a ?b then _ else _] =>
               destruct (String.eqb a b)
           end; eauto.
    destruct op as [|c op]; [discriminate Wop|].
    cbn in Wop. rewrite Wop. eauto.
  - destruct l as [ | b | z | f | s | es | m ]; try discriminate W.
    + apply String.eqb_eq in W. subst op. cbn. eauto.
    + apply andb_true_iff in W. destruct W as [W _].
      apply String.eqb_eq in W. subst op. cbn. eauto.
    + apply andb_true_iff in W. destruct W as [W Wf].
      apply String.eqb_eq in W. subst op. cbn. unfold marshalFloat.
      rewrite Wf. destruct (integralZ f) as [z|]; [|eauto].
      destruct (Z.abs z <? 10 ^ 21)%Z; eauto.
    + apply andb_true_iff in W. destruct W as [W _].
      apply String.eqb_eq in W. subst op. cbn. eauto.
    + apply andb_true_iff in W. destruct W as [W Wes].
      apply String.eqb_eq in W. subst op. cbn.
      destruct (@mapM_total _ _ (marshalExpression true) es) as [js E].
      * cbn in Hl. rewrite forallb_forall in Wes.
        rewrite Forall_forall in *. intros x Hx. apply Hl; auto.
      * rewrite E. cbn. eauto.
    + apply andb_true_iff in W. destruct W as [W _].
      apply andb_true_iff in W. destruct W as [W _].
      apply andb_true_iff in W. destruct W as [W Wm].
      apply String.eqb_eq in W. subst op. cbn.
      destruct (@marshalMap_total
                  (map (fun kv => (fst kv, marshalExpression true (snd kv))) m))
        as [bs E].
      * cbn in Hl. rewrite forallb_forall in Wm.
        rewrite Forall_forall in *. intros kv Hkv.
        apply in_map_iff in Hkv. destruct Hkv as [kv0 [<- Hin]]. simpl.
        apply Hl; auto.
      * rewrite E. eauto.
Qed.

Lemma roundTrips_list (es : list Expression) :
  Forall roundTrips es -> forallb stable es = true ->
  exists js, mapM (marshalExpression true) es = Ok js
             /\ mapM UnmarshalJSON js = Ok (map inKeyOrder es).
Proof.
  induction 1 as [|x es Hx Hes IH]; simpl; intros S.
  - exists []. split; reflexivity.
  - apply andb_true_iff in S. destruct S as [Sx Ses].
    destruct (Hx Sx) as [j [Ej Ep]]. destruct (IH Ses) as [js [Ejs Eps]].
    exists (j :: js). rewrite Ej, Ejs. simpl. rewrite Ep, Eps. split; reflexivity.
Qed.

Lemma roundTrips_bindings (m : list (string * Expression)) :
  Forall (fun kv => roundTrips (snd kv)) m ->
  forallb (fun kv => stable (snd kv)) m = true ->
  exists bs,
    mapM (fun kv : string * result json => j <- snd kv ;; Ok (fst kv, j))
      (map (fun kv => (fst kv, marshalExpression true (snd kv))) m) = Ok bs
    /\ mapM (fun kv => x <- UnmarshalJSON (snd kv) ;; Ok (fst kv, x)) bs
       = Ok (map (fun kv => (fst kv, inKeyOrder (snd kv))) m).
Proof.
  induction 1 as [|[k x] m Hx Hm IH]; simpl; intros S.
  - exists []. split; reflexivity.
  - apply andb_true_iff in S. destruct S as [Sx Sm].
    destruct (Hx Sx) as [j [Ej Ep]]. destruct (IH Sm) as [bs [Ebs Eps]].
    cbn [snd fst] in *.
    exists ((k, j) :: bs). rewrite Ej. simpl. rewrite Ebs. simpl.
    rewrite Ep. simpl. rewrite Eps. split; reflexivity.
Qed.

Lemma forallb_sortByKey {A : Type} (p : string * A -> bool)
  (l : list (string * A)) :
  forallb p l = true -> forallb p (sortByKey l) = true.
Proof.
  rewrite !forallb_forall. intros H.
  apply Forall_forall. apply Forall_sortByKey. now apply Forall_forall.
Qed.

(** What the parser does with the map it decoded. *)
Lemma dict_of_plain_map (cv : list (string * Expression)) :
  operatorShaped cv = false ->
  match cv with
  | [(op, exp)] =>
      match op with
      | EmptyString => Panic "index out of range"
      | String c _ =>
          if Ascii.eqb c "@"%char
          then Ok (mkExpression op (Some exp) LNil)
          else Ok (mkExpression "@dict" None (LMap cv))
      end
  | _ => Ok (mkExpression "@dict" None (LMap cv))
  end = Ok (mkExpression "@dict" None (LMap cv)).
Proof.
  destruct cv as [|[op exp] [|kv rest]]; try reflexivity.
  destruct op as [|c op]; simpl; [discriminate|].
  intros ->. reflexivity.
Qed.

Lemma stable_round_trip (e : Expression) : roundTrips e.
Proof.
  induction e as [op arg l Ha Hl] using Expression_nested_ind. intros W.
  destruct arg as [a|]; cbn -[String.eqb] in W.
  - destruct l; try discriminate W.
    apply andb_true_iff in W. destruct W as [W Wa].
    apply andb_true_iff in W. destruct W as [W Wdict].
    apply andb_true_iff in W. destruct W as [W Wlist].
    apply andb_true_iff in W. destruct W as [Wop Wany].
    apply negb_true_iff in Wany, Wlist, Wdict.
    destruct (Ha Wa) as [ja [Ej Ep]].
    exists (JObject [(op, ja)]). split.
    + cbn -[String.eqb]. rewrite Ej, Wany, Wlist, Wdict. cbn -[String.eqb].
      repeat match goal with
             | |- context [if String.eqb ?a ?b then _ else _] =>
                 destruct (String.eqb a b)
             end; try reflexivity.
      destruct op as [|c op]; [discriminate Wop|].
      cbn in Wop. rewrite Wop. reflexivity.
    + cbn. rewrite Ep. cbn.
      destruct op as [|c op]; [discriminate Wop|].
      cbn in Wop. rewrite Wop. reflexivity.
  - destruct l as [ | b | z | f | s | es | m ]; try discriminate W.
    + apply String.eqb_eq in W. subst op. exists (JBool b). split; reflexivity.
    + apply andb_true_iff in W. destruct W as [W Wz].
      apply String.eqb_eq in W. subst op. exists (JInt z).
      split; [reflexivity|]. cbn. now rewrite Wz.
    + apply andb_true_iff in W. destruct W as [W Wf].
      apply String.eqb_eq in W. subst op. exists (JFrac f).
      unfold writtenAsFloat in Wf.
      apply andb_true_iff in Wf. destruct Wf as [Wfin Wint].
      split.
      * cbn. unfold marshalFloat. rewrite Wfin.
        destruct (integralZ f) as [z|]; [|reflexivity].
        apply negb_true_iff in Wint. now rewrite Wint.
      * cbn. now rewrite Wfin.
    + apply andb_true_iff in W. destruct W as [W Ws].
      apply String.eqb_eq in W. subst op. exists (JString s).
      split; [reflexivity|]. cbn. apply negb_true_iff in Ws. now rewrite Ws.
    + apply andb_true_iff in W. destruct W as [W Wes].
      apply String.eqb_eq in W. subst op.
      destruct (roundTrips_list Hl Wes) as [js [Ejs Eps]].
      exists (JArray js). split.
      * cbn. rewrite Ejs. reflexivity.
      * cbn. rewrite Eps. reflexivity.
    + apply andb_true_iff in W. destruct W as [W Wshape].
      apply andb_true_iff in W. destruct W as [W Wd].
      apply andb_true_iff in W. destruct W as [W Wm].
      apply String.eqb_eq in W. subst op. apply negb_true_iff in Wshape.
      cbn in Hl.
      destruct (@roundTrips_bindings (sortByKey m)) as [bs [Ebs Eps]].
      * now apply Forall_sortByKey.
      * now apply forallb_sortByKey.
      * exists (JObject bs). split.
        -- cbn. unfold marshalMap.
           rewrite (sortByKey_map (marshalExpression true) m), Ebs.
           reflexivity.
        -- cbn. rewrite Eps. cbn.
           rewrite mapOfBindings_distinct
             by (now rewrite distinctKeys_map, distinctKeys_sortByKey).
           rewrite dict_of_plain_map
             by (now rewrite operatorShaped_map, operatorShaped_sortByKey).
           rewrite (sortByKey_map inKeyOrder m). reflexivity.
Qed.

(** *** The loops of the higher-order operators *)

Section LoopFacts.

Variable ev : Value -> result Value.


Lemma condition_Ok (e : Expression) (x : Value) (b : bool) :
  condition e ev x = Ok b <-> ev x = Ok (VBool b).
Proof.
  unfold condition. split.
  - destruct (ev x) as [v| | |]; simpl; try discriminate.
    destruct v; simpl; try discriminate. now intros [= ->].
  - intros ->. reflexivity.
Qed.

Lemma condition_Ok_indep (e1 e2 : Expression) (x : Value) (b : bool) :
  condition e1 ev x = Ok b -> condition e2 ev x = Ok b.
Proof. rewrite !condition_Ok. auto. Qed.

Lemma noneLoop_anyLoop (e1 e2 : Expression) (l : list Value) (b : bool) :
  anyLoop e1 ev l = Ok b -> noneLoop e2 ev l = Ok (negb b).
Proof.
  induction l as [|x l IH]; simpl.
  - now intros [= <-].
  - destruct (condition e1 ev x) as [c| | |] eqn:E; simpl; try discriminate.
    rewrite (condition_Ok_indep e1 e2 x E). simpl.
    destruct c; [now intros [= <-]|exact IH].
Qed.

Lemma anyLoop_noneLoop (e1 e2 : Expression) (l : list Value) (b : bool) :
  noneLoop e1 ev l = Ok b -> anyLoop e2 ev l = Ok (negb b).
Proof.
  induction l as [|x l IH]; simpl.
  - now intros [= <-].
  - destruct (condition e1 ev x) as [c| | |] eqn:E; simpl; try discriminate.
    rewrite (condition_Ok_indep e1 e2 x E). simpl.
    destruct c; [now intros [= <-]|exact IH].
Qed.

Lemma filterLoop_mapM (e : Expression) (l : list Value) :
  filterLoop e ev l
  = (bs <- mapM (condition e ev) l ;;
     Ok (map fst (filter snd (combine l bs)))).
Proof.
  induction l as [|x l IH]; simpl; [reflexivity|].
  destruct (condition e ev x) as [b| | |]; simpl; try reflexivity.
  rewrite IH. destruct (mapM (condition e ev) l) as [bs| | |]; simpl;
    try reflexivity.
  destruct b; reflexivity.
Qed.

Lemma length_kept (l : list Value) (bs : list bool) :
  length (map fst (filter snd (combine l bs))) <= length l.
Proof.
  rewrite length_map.
  etransitivity; [apply filter_length_le|].
  rewrite length_combine. lia.
Qed.

Lemma mapM_app_Err {A B : Type} (f : A -> result B) (pre : list A) (x : A)
  (post : list A) (ys : list B) (err : error) :
  mapM f pre = Ok ys -> f x = Err err -> mapM f (pre ++ x :: post) = Err err.
Proof.
  revert ys. induction pre as [|a pre IH]; simpl; intros ys Hp Hx.
  - now rewrite Hx.
  - destruct (f a); simpl in *; try discriminate Hp.
    destruct (mapM f pre) as [ys'| | |]; simpl in *; try discriminate Hp.
    now rewrite (IH ys' eq_refl Hx).
Qed.

Lemma anyLoop_short (e : Expression) (pre : list Value) (x : Value)
  (post : list Value) :
  Forall (fun y => ev y = Ok (VBool false)) pre ->
  ev x = Ok (VBool true) ->
  anyLoop e ev (pre ++ x :: post) = Ok true.
Proof.
  induction 1 as [|y pre Hy Hpre IH]; simpl; intros Hx.
  - apply (condition_Ok e) in Hx. now rewrite Hx.
  - apply (condition_Ok e) in Hy. rewrite Hy. simpl. now apply IH.
Qed.

Lemma allLoop_short (e : Expression) (pre : list Value) (x : Value)
  (post : list Value) :
  Forall (fun y => ev y = Ok (VBool true)) pre ->
  ev x = Ok (VBool false) ->
  allLoop e ev (pre ++ x :: post) = Ok false.
Proof.
  induction 1 as [|y pre Hy Hpre IH]; simpl; intros Hx.
  - apply (condition_Ok e) in Hx. now rewrite Hx.
  - apply (condition_Ok e) in Hy. rewrite Hy. simpl. now apply IH.
Qed.
End LoopFacts.

Section DualityFacts.

Variable G : evalCtx -> string -> result Value.
Variable S_ :
  evalCtx -> string -> Value -> Unstructured -> result Unstructured.
Variable M : Unstructured -> Unstructured -> result Value.

Lemma none_negates_any (fuel : nat) (arg : option Expression)
  (l : Lit Expression) (ctx : evalCtx) (b : bool) :
  Evaluate G S_ M (S fuel) (mkExpression "@any" arg l) ctx = Ok (VBool b) ->
  Evaluate G S_ M (S fuel) (mkExpression "@none" arg l) ctx = Ok (VBool (negb b)).
Proof.
  cbn. destruct (asExpOrList arg) as [args| | |]; cbn; try discriminate.
  destruct args as [|exp [|a1 [|a2 rest]]]; cbn; try discriminate.
  destruct (Evaluate G S_ M fuel a1 ctx) as [raw| | |]; cbn; try discriminate.
  destruct (asList raw) as [inputs| | |]; cbn; try discriminate.
  destruct (anyLoop _ _ inputs) as [c| | |] eqn:E; cbn; try discriminate.
  intros [= <-].
  erewrite noneLoop_anyLoop; [reflexivity|exact E].
Qed.
Lemma any_negates_none (fuel : nat) (arg : option Expression)
  (l : Lit Expression) (ctx : evalCtx) (b : bool) :
  Evaluate G S_ M (S fuel) (mkExpression "@none" arg l) ctx = Ok (VBool b) ->
  Evaluate G S_ M (S fuel) (mkExpression "@any" arg l) ctx
  = Ok (VBool (negb b)).
Proof.
  cbn. destruct (asExpOrList arg) as [args| | |]; cbn; try discriminate.
  destruct args as [|exp [|a1 [|a2 rest]]]; cbn; try discriminate.
  destruct (Evaluate G S_ M fuel a1 ctx) as [raw| | |]; cbn; try discriminate.
  destruct (asList raw) as [inputs| | |]; cbn; try discriminate.
  destruct (noneLoop _ _ inputs) as [c| | |] eqn:E; cbn; try discriminate.
  intros [= <-].
  erewrite anyLoop_noneLoop; [reflexivity|exact E].
Qed.

End DualityFacts.

Lemma UnmarshalJSON_bad_element (pre : list json) (x : json)
  (post : list json) (err : error) :
  Forall (fun y => exists e, UnmarshalJSON y = Ok e) pre ->
  UnmarshalJSON x = Err err ->
  UnmarshalJSON (JArray (pre ++ x :: post))
  = Err (ErrUnmarshal "expression" (JArray (pre ++ x :: post))).
Proof.
  intros Hpre Hx. destruct (@mapM_total _ _ UnmarshalJSON pre Hpre) as [es Hes].
  cbn. rewrite (@mapM_app_Err _ _ UnmarshalJSON pre x post es err Hes Hx).
  reflexivity.
Qed.

Lemma UnmarshalJSON_bad_value (pre : list (string * json)) (k : string)
  (x : json) (post : list (string * json)) (err : error) :
  Forall (fun kv => exists e, UnmarshalJSON (snd kv) = Ok e) pre ->
  UnmarshalJSON x = Err err ->
  UnmarshalJSON (JObject (pre ++ (k, x) :: post))
  = Err (ErrUnmarshal "expression" (JObject (pre ++ (k, x) :: post))).
Proof.
  intros Hpre Hx.
  destruct (@mapM_total _ _
              (fun kv : string * json =>
                 y <- UnmarshalJSON (snd kv) ;; Ok (fst kv, y)) pre)
    as [bs Hbs].
  { eapply Forall_impl; [|exact Hpre]. intros [k' y] [e He]. simpl in *.
    rewrite He. simpl. now eexists. }
  cbn.
  rewrite (@mapM_app_Err _ _ _ pre (k, x) post bs err Hbs).
  - reflexivity.
  - simpl. now rewrite Hx.
Qed.

Section EvaluateFacts.

Variable G : evalCtx -> string -> result Value.
Variable S_ :
  evalCtx -> string -> Value -> Unstructured -> result Unstructured.
Variable M : Unstructured -> Unstructured -> result Value.
Abbreviation Ev := (Evaluate G S_ M).

Lemma Evaluate_list_literal (fuel : nat) (es : list Expression) (ctx : evalCtx) :
  Ev (S fuel) (lit "@list" (LExprs es)) ctx
  = (L <- mapM (fun exp => Ev fuel exp ctx) es ;;
     Ok (VList (unpackList (VList L)))).
Proof. reflexivity. Qed.

Lemma Evaluate_list_operator (fuel : nat) (arg : Expression) (ctx : evalCtx)
  (L : list Value) :
  Ev fuel arg ctx = Ok (VList L) ->
  Ev (S fuel) (operator "@list" arg) ctx = Ok (VList (unpackList (VList L))).
Proof. intros H. cbn. rewrite H. reflexivity. Qed.

Lemma Evaluate_filter_pair (fuel : nat) (cond a1 : Expression) (ctx : evalCtx) :
  let e := operator "@filter" (lit "@list" (LExprs [cond; a1])) in
  Ev (S fuel) e ctx
  = (rawArg <- orNew "failed to evaluate arguments" (Ev fuel a1 ctx) ;;
     inputs <- orNew "invalid arguments: expected a list" (asList rawArg) ;;
     vs <- filterLoop e
             (fun input => Ev fuel cond (mkCtx (object ctx) input)) inputs ;;
     Ok (VList vs)).
Proof. reflexivity. Qed.

Lemma unpackList_ints (ns : list Z) :
  unpackList (VList (map VInt ns)) = map VInt ns.
Proof. destruct ns; reflexivity. Qed.

Lemma Evaluate_int_literals (fuel : nat) (ctx : evalCtx) (ns : list Z) :
  mapM (fun exp => Ev (S fuel) exp ctx)
    (map (fun i => lit "@int" (LInt i)) ns)
  = Ok (map VInt ns).
Proof.
  induction ns as [|n ns IH]; [reflexivity|].
  cbn [map mapM]. rewrite IH. reflexivity.
Qed.

Lemma Evaluate_ints (fuel : nat) (ctx : evalCtx) (ns : list Z) :
  Ev (S (S fuel)) (ints ns) ctx = Ok (VList (map VInt ns)).
Proof.
  unfold ints. rewrite Evaluate_list_literal, Evaluate_int_literals.
  cbn [bind]. now rewrite unpackList_ints.
Qed.

Lemma filterLoop_above (e : Expression) (ev : Value -> result Value)
  (t : Z) (ns : list Z) :
  (forall n, ev (VInt n) = Ok (VBool (n >? t)%Z)) ->
  filterLoop e ev (map VInt ns)
  = Ok (map VInt (filter (fun n => (n >? t)%Z) ns)).
Proof.
  intros H. induction ns as [|n ns IH]; [reflexivity|].
  cbn [map filterLoop filter]. unfold condition. rewrite H. cbn [bind orWrapped asBool].
  rewrite IH. cbn [bind]. destruct (n >? t)%Z; reflexivity.
Qed.

Lemma filterAbove_evaluates (ctx : evalCtx) (fuel : nat) (t : Z) (ns : list Z) :
  (forall c, G c "$" = Ok (subject c)) ->
  4 <= fuel ->
  Ev fuel (filterAbove t ns) ctx
  = Ok (VList (map VInt (filter (fun n => (n >? t)%Z) ns))).
Proof.
  intros H Hf. destruct fuel as [|[|[|[|k]]]]; try lia. clear Hf.
  unfold filterAbove. rewrite Evaluate_filter_pair.
  rewrite (Evaluate_list_operator (S (S k)) (ints ns) ctx (Evaluate_ints k ctx ns)).
  rewrite unpackList_ints. cbn [orNew bind asList].
  rewrite (@filterLoop_above _ _ t ns).
  - reflexivity.
  - intros n. cbn. rewrite H. reflexivity.
Qed.

Lemma Evaluate_nested_list (e : Expression) (ctx : evalCtx) (f : nat)
  (xs : list Value) :
  Ev f e ctx = Ok (VList xs) ->
  forall n, Ev (n + f) (nested n e) ctx = Ok (VList xs).
Proof.
  intros H. induction n as [|n IH]; [exact H|].
  cbn [nested Nat.add]. rewrite Evaluate_list_literal.
  cbn [mapM]. rewrite IH. reflexivity.
Qed.

Lemma Evaluate_nested_scalar (e : Expression) (ctx : evalCtx) (f : nat)
  (v : Value) :
  Ev f e ctx = Ok v -> isList v = false ->
  forall n, Ev (S n + f) (nested (S n) e) ctx = Ok (VList [v]).
Proof.
  intros H Hv. induction n as [|n IH].
  - cbn [nested Nat.add]. rewrite Evaluate_list_literal.
    cbn [mapM]. rewrite H. cbn [bind]. destruct v; try reflexivity. discriminate Hv.
  - change (nested (S (S n)) e) with (lit "@list" (LExprs [nested (S n) e])).
    change (S (S n) + f) with (S (S n + f)).
    rewrite Evaluate_list_literal. cbn [mapM]. rewrite IH. reflexivity.
Qed.

Lemma map_arity (fuel : nat) (arg : option Expression) (l : Lit Expression)
  (ctx : evalCtx) (args : list Expression) :
  asExpOrList arg = Ok args -> length args < 2 ->
  Ev (S fuel) (mkExpression "@map" arg l) ctx = Panic "index out of range"
  /\ (forall op, In op ["@filter"; "@any"; "@all"; "@none"] ->
        Ev (S fuel) (mkExpression op arg l) ctx
        = Err (ErrExpression (mkExpression op arg l)
                 (ErrNew "invalid arguments: expected 2 arguments"))).
Proof.
  intros Ha Hl. split.
  - cbn. rewrite Ha. destruct args as [|x [|y r]]; try reflexivity.
    simpl in Hl. lia.
  - intros op [<-|[<-|[<-|[<-|[]]]]]; cbn; rewrite Ha;
      destruct args as [|x [|y r]]; try reflexivity; simpl in Hl; lia.
Qed.
End EvaluateFacts.

Lemma empty_op (arg : option Expression) (l : Lit Expression) (j : json) :
  MarshalJSON (mkExpression "" arg l) = Panic "index out of range"
  /\ UnmarshalJSON (JObject [("", j)])
     = match UnmarshalJSON j with
       | Ok _ => Panic "index out of range"
       | Err _ => Err (ErrUnmarshal "expression" (JObject [("", j)]))
       | Panic msg => Panic msg
       | OutOfFuel => OutOfFuel
       end.
Proof.
  split; [reflexivity|]. cbn. destruct (UnmarshalJSON j); reflexivity.
Qed.

(** *** Extras on the parser and the marshaller *)

(** X6: whatever [UnmarshalJSON] returns is well-formed, all the way
    down: a terminal has its literal and no argument (an int64, a finite
    float, a non-empty string), list and dict literals hold well-formed
    expressions, a dict literal has distinct keys and is not a single
    [@] key, and an operator has an op that starts with [@], an argument
    and no literal.  In particular the op is never empty. *)
Theorem UnmarshalJSON_builds_wellFormed :
  forall (j : json) (e : Expression),
    UnmarshalJSON j = Ok e ->
    wellFormed e = true /\ Op e <> "".
Proof.
  intros j e H. pose proof (UnmarshalJSON_wellFormed j H) as W.
  split; [exact W|].
  destruct e as [op arg l]. cbn. intros ->.
  destruct arg, l; cbn in W; try discriminate W.
Qed.

Lemma UnmarshalJSON_builds_wellFormed_witness :
  UnmarshalJSON filterJSON = Ok filterExpression
  /\ wellFormed filterExpression = true /\ Op filterExpression <> "".
Proof.
  split; [reflexivity|].
  exact (@UnmarshalJSON_builds_wellFormed filterJSON filterExpression
           eq_refl).
Defined.

(** X7: [MarshalJSON] succeeds on every expression [UnmarshalJSON]
    returned: re-serializing a parsed expression never returns an error and
    never panics. *)
Theorem MarshalJSON_succeeds_on_parsed :
  forall (j : json) (e : Expression),
    UnmarshalJSON j = Ok e -> exists j', MarshalJSON e = Ok j'.
Proof.
  intros j e H. apply wellFormed_marshals.
  exact (UnmarshalJSON_wellFormed j H).
Qed.

Lemma MarshalJSON_succeeds_on_parsed_witness :
  UnmarshalJSON anyJSON = Ok anyExpression
  /\ exists j', MarshalJSON anyExpression = Ok j'.
Proof.
  split; [reflexivity|].
  exact (@MarshalJSON_succeeds_on_parsed anyJSON anyExpression eq_refl).
Defined.

(** X8: outside its three leaks the coding round-trips.  A well-formed
    expression of ASCII text without [@any], [@list] or [@dict] operator
    and without a float terminal that is written as an integer marshals
    to a document that parses back to the same expression, the bindings
    of its dict literals taken in key order. *)
Theorem stable_expressions_round_trip :
  forall e : Expression,
    stable e = true ->
    plainText e = true ->
    exists j, MarshalJSON e = Ok j /\ UnmarshalJSON j = Ok (inKeyOrder e).
Proof. intros e H _. exact (stable_round_trip e H). Qed.

Lemma stable_expressions_round_trip_witness :
  stable sampleDict = true
  /\ plainText sampleDict = true
  /\ exists j, MarshalJSON sampleDict = Ok j
               /\ UnmarshalJSON j = Ok (inKeyOrder sampleDict).
Proof.
  split; [reflexivity|]. split; [reflexivity|].
  exact (@stable_expressions_round_trip sampleDict eq_refl eq_refl).
Defined.

(** X9: an empty op or key makes the coding panic instead of returning an
    error: [MarshalJSON] indexes [e.Op[0]] of an expression whose op is
    empty, and [UnmarshalJSON] indexes [op[0]] of the single key of an
    object [{"": x}] whenever [x] itself parses. *)
Theorem empty_op_panics :
  forall (arg : option Expression) (l : Lit Expression) (j : json),
    MarshalJSON (mkExpression "" arg l) = Panic "index out of range"
    /\ UnmarshalJSON (JObject [("", j)])
       = match UnmarshalJSON j with
         | Ok _ => Panic "index out of range"
         | Err _ => Err (ErrUnmarshal "expression" (JObject [("", j)]))
         | Panic msg => Panic msg
         | OutOfFuel => OutOfFuel
         end.
Proof. exact empty_op. Qed.

(** X10: a list or an object with an element that does not parse is
    refused as a whole, and the error carries the whole document, not the
    element: so no list or object that holds the empty string can be
    parsed. *)
Theorem UnmarshalJSON_refuses_whole_document :
  forall (pre post : list json) (x : json) (err : error)
         (bpre bpost : list (string * json)) (k : string),
    Forall (fun y => exists e, UnmarshalJSON y = Ok e) pre ->
    Forall (fun kv => exists e, UnmarshalJSON (snd kv) = Ok e) bpre ->
    UnmarshalJSON x = Err err ->
    UnmarshalJSON (JArray (pre ++ x :: post))
      = Err (ErrUnmarshal "expression" (JArray (pre ++ x :: post)))
    /\ UnmarshalJSON (JObject (bpre ++ (k, x) :: bpost))
       = Err (ErrUnmarshal "expression"
                (JObject (bpre ++ (k, x) :: bpost))).
Proof.
  intros pre post x err bpre bpost k Hpre Hbpre Hx. split.
  - exact (@UnmarshalJSON_bad_element pre x post err Hpre Hx).
  - exact (@UnmarshalJSON_bad_value bpre k x bpost err Hbpre Hx).
Qed.

Lemma UnmarshalJSON_refuses_whole_document_witness :
  Forall (fun y => exists e, UnmarshalJSON y = Ok e) [JInt 1]
  /\ Forall (fun kv : string * json =>
               exists e, UnmarshalJSON (snd kv) = Ok e) [("a", JBool true)]
  /\ UnmarshalJSON (JString "")
     = Err (ErrUnmarshal "expression" (JString ""))
  /\ UnmarshalJSON (JArray ([JInt 1] ++ JString "" :: [JInt 2]))
     = Err (ErrUnmarshal "expression"
              (JArray ([JInt 1] ++ JString "" :: [JInt 2])))
  /\ UnmarshalJSON (JObject ([("a", JBool true)] ++ ("b", JString "") :: []))
     = Err (ErrUnmarshal "expression"
              (JObject ([("a", JBool true)] ++ ("b", JString "") :: []))).
Proof.
  assert (H1 : Forall (fun y => exists e, UnmarshalJSON y = Ok e) [JInt 1])
    by (repeat constructor; eexists; reflexivity).
  assert (H2 : Forall (fun kv : string * json =>
                         exists e, UnmarshalJSON (snd kv) = Ok e)
                 [("a", JBool true)])
    by (repeat constructor; eexists; reflexivity).
  split; [exact H1|]. split; [exact H2|]. split; [reflexivity|].
  exact (@UnmarshalJSON_refuses_whole_document [JInt 1] [JInt 2]
           (JString "") (ErrUnmarshal "expression" (JString ""))
           [("a", JBool true)] [] "b" H1 H2 eq_refl).
Defined.

(** *** Extras on the evaluator *)

(** X11: [@map] does not check the number of its arguments.  When the
    argument list has fewer than two expressions, [@map] panics on
    [args[0]] or [args[1]], where [@filter], [@any], [@all] and [@none]
    return the error that two arguments are expected. *)
Theorem map_panics_on_short_argument :
  forall (GetJSONPath : evalCtx -> string -> result Value)
         (SetJSONPath :
            evalCtx -> string -> Value -> Unstructured -> result Unstructured)
         (MatchLabels : Unstructured -> Unstructured -> result Value)
         (fuel : nat) (arg : option Expression) (l : Lit Expression)
         (ctx : evalCtx) (args : list Expression),
    asExpOrList arg = Ok args ->
    length args < 2 ->
    Evaluate GetJSONPath SetJSONPath MatchLabels (S fuel)
      (mkExpression "@map" arg l) ctx = Panic "index out of range"
    /\ (forall op,
          In op ["@filter"; "@any"; "@all"; "@none"] ->
          Evaluate GetJSONPath SetJSONPath MatchLabels (S fuel)
            (mkExpression op arg l) ctx
          = Err (ErrExpression (mkExpression op arg l)
                   (ErrNew "invalid arguments: expected 2 arguments"))).
Proof.
  intros G S M fuel arg l ctx args Ha Hl.
  exact (@map_arity G S M fuel arg l ctx args Ha Hl).
Qed.

Lemma map_panics_on_short_argument_witness :
  asExpOrList (Some (lit "@int" (LInt 1))) = Ok [lit "@int" (LInt 1)]
  /\ length [lit "@int" (LInt 1)] < 2
  /\ Evaluate subjectResolver keySetter noMatch 1
       (mkExpression "@map" (Some (lit "@int" (LInt 1))) LNil)
       (mkCtx VNil VNil)
     = Panic "index out of range".
Proof.
  split; [reflexivity|]. split; [apply le_n|].
  exact (proj1 (@map_panics_on_short_argument subjectResolver keySetter
                  noMatch 0 (Some (lit "@int" (LInt 1))) LNil
                  (mkCtx VNil VNil) [lit "@int" (LInt 1)] eq_refl
                  (le_n 2))).
Defined.

(** X12: [@none] is the negation of [@any]: on the same well-formed
    argument (every exit of [Evaluate] prints the expression with
    [String], which is safe on the expressions the parser builds), one
    evaluates to a boolean exactly when the other evaluates to its
    negation. *)
Theorem none_is_the_negation_of_any :
  forall (GetJSONPath : evalCtx -> string -> result Value)
         (SetJSONPath :
            evalCtx -> string -> Value -> Unstructured -> result Unstructured)
         (MatchLabels : Unstructured -> Unstructured -> result Value)
         (fuel : nat) (a : Expression) (ctx : evalCtx) (b : bool),
    wellFormed a = true ->
    Evaluate GetJSONPath SetJSONPath MatchLabels (S fuel)
      (operator "@any" a) ctx = Ok (VBool b)
    <-> Evaluate GetJSONPath SetJSONPath MatchLabels (S fuel)
          (operator "@none" a) ctx = Ok (VBool (negb b)).
Proof.
  intros G S M fuel a ctx b _. unfold operator. split.
  - apply none_negates_any.
  - intros H. apply any_negates_none in H. now rewrite negb_involutive in H.
Qed.

Lemma none_is_the_negation_of_any_witness :
  wellFormed (someAbove3 [1; 5; 2]%Z) = true
  /\ Evaluate subjectResolver keySetter noMatch 4
       (operator "@none" (someAbove3 [1; 5; 2]%Z)) (mkCtx VNil VNil)
     = Ok (VBool false).
Proof.
  split; [reflexivity|].
  exact (proj1 (@none_is_the_negation_of_any subjectResolver keySetter
                  noMatch 3 (someAbove3 [1; 5; 2]%Z) (mkCtx VNil VNil) true
                  eq_refl) eq_refl).
Defined.

(** X13: the loop of [@filter] evaluates the condition on every element
    in order and returns at the first one on which it fails; otherwise it
    keeps exactly the elements whose condition is true, in the order of
    the input, so its result is never longer than the input and holds
    elements of the input only. *)
Theorem filter_keeps_the_matching_elements :
  forall (e : Expression) (ev : Value -> result Value) (l : list Value),
    filterLoop e ev l
    = (bs <- mapM (condition e ev) l ;;
       Ok (map fst (filter snd (combine l bs))))
    /\ (forall vs, filterLoop e ev l = Ok vs ->
                   length vs <= length l /\ incl vs l)
    /\ (forall pre x post bs err,
          l = pre ++ x :: post ->
          mapM (condition e ev) pre = Ok bs ->
          condition e ev x = Err err ->
          filterLoop e ev l = Err err).
Proof.
  intros e ev l. split; [apply filterLoop_mapM|]. split.
  - intros vs H. rewrite filterLoop_mapM in H.
    destruct (mapM (condition e ev) l) as [bs| | |]; try discriminate H.
    injection H as <-. split; [apply length_kept|].
    intros v Hv. apply in_map_iff in Hv. destruct Hv as [[v' b] [<- Hin]].
    apply filter_In in Hin. destruct Hin as [Hin _].
    now apply in_combine_l in Hin.
  - intros pre x post bs err -> Hpre Hx. rewrite filterLoop_mapM.
    now rewrite (@mapM_app_Err _ _ (condition e ev) pre x post bs err Hpre Hx).
Qed.

(** X14: [@any] and [@all] stop at the first element that decides them:
    [@any] is true as soon as the condition holds and [@all] false as
    soon as it fails, whatever comes after that element (the condition is
    not evaluated there, so an element on which it would fail does no
    harm), while [@filter] visits every element and fails on it. *)
Theorem quantifiers_stop_at_the_deciding_element :
  forall (e : Expression) (ev : Value -> result Value)
         (pre post : list Value) (x bad : Value) (err : error) (b : bool),
    Forall (fun y => ev y = Ok (VBool (negb b))) pre ->
    ev x = Ok (VBool b) ->
    ev bad = Err err ->
    (if b then anyLoop e ev (pre ++ x :: bad :: post)
     else allLoop e ev (pre ++ x :: bad :: post)) = Ok b
    /\ filterLoop e ev (pre ++ x :: bad :: post) = Err err.
Proof.
  intros e ev pre post x bad err b Hpre Hx Hbad. split.
  - destruct b; [now apply anyLoop_short|now apply allLoop_short].
  - destruct (@mapM_total _ _ (condition e ev) (pre ++ [x])) as [bs Hbs].
    { apply Forall_app. split.
      - eapply Forall_impl; [|exact Hpre]. intros y Hy.
        apply (condition_Ok ev e) in Hy. eauto.
      - constructor; [|constructor].
        apply (condition_Ok ev e) in Hx. eauto. }
    rewrite filterLoop_mapM.
    replace (pre ++ x :: bad :: post) with ((pre ++ [x]) ++ bad :: post)
      by (now rewrite <- app_assoc).
    rewrite (@mapM_app_Err _ _ (condition e ev) (pre ++ [x]) bad post bs err
               Hbs).
    + reflexivity.
    + unfold condition. now rewrite Hbad.
Qed.

Lemma quantifiers_stop_witness :
  Forall (fun y => isPositive y = Ok (VBool (negb true))) [VInt 0]
  /\ isPositive (VInt 1) = Ok (VBool true)
  /\ isPositive VNil = Err (ErrNew "not an int")
  /\ anyLoop anyExpression isPositive ([VInt 0] ++ VInt 1 :: VNil :: [])
     = Ok true
  /\ filterLoop anyExpression isPositive
       ([VInt 0] ++ VInt 1 :: VNil :: [])
     = Err (ErrNew "not an int").
Proof.
  assert (H : Forall (fun y => isPositive y = Ok (VBool (negb true)))
                [VInt 0])
    by (repeat constructor).
  split; [exact H|]. split; [reflexivity|]. split; [reflexivity|].
  exact (@quantifiers_stop_at_the_deciding_element anyExpression
           isPositive [VInt 0] [] (VInt 1) VNil (ErrNew "not an int") true
           H eq_refl eq_refl).
Defined.

(** X15: for every threshold [t] and every list [ns] of int64s, the
    expression [@filter: [{@gt: [$, t]}, {@list: ns}]] evaluates to the
    elements of [ns] above [t], in the order of [ns], in every context
    and for every recursion bound of at least 4, provided the JSON-path
    resolver binds [$] to the subject of the iteration. *)
Theorem filter_above_threshold :
  forall (GetJSONPath : evalCtx -> string -> result Value)
         (SetJSONPath :
            evalCtx -> string -> Value -> Unstructured -> result Unstructured)
         (MatchLabels : Unstructured -> Unstructured -> result Value)
         (ctx : evalCtx) (fuel : nat) (t : Z) (ns : list Z),
    (forall c, GetJSONPath c "$" = Ok (subject c)) ->
    4 <= fuel ->
    Evaluate GetJSONPath SetJSONPath MatchLabels fuel (filterAbove t ns) ctx
    = Ok (VList (map VInt (filter (fun n => (n >? t)%Z) ns))).
Proof.
  intros G S M ctx fuel t ns H Hf.
  exact (@filterAbove_evaluates G S M ctx fuel t ns H Hf).
Qed.

Lemma filter_above_threshold_witness :
  (forall c, subjectResolver c "$" = Ok (subject c))
  /\ 4 <= 5
  /\ Evaluate subjectResolver keySetter noMatch 5
       (filterAbove 0 [(-1)%Z; 2%Z; 0%Z; 7%Z]) (mkCtx VNil VNil)
     = Ok (VList [VInt 2; VInt 7]).
Proof.
  split; [reflexivity|]. split; [repeat constructor|].
  exact (@filter_above_threshold subjectResolver keySetter noMatch
           (mkCtx VNil VNil) 5 0%Z [(-1)%Z; 2%Z; 0%Z; 7%Z]
           (fun c => eq_refl) (le_S 4 4 (le_n 4))).
Defined.

(** X16: list literals of one element do not nest.  Around a well-formed
    expression that evaluates to a list, any number of them changes
    nothing; around one that evaluates to anything else, one or more of
    them give the list of that one value. *)
Theorem singleton_lists_do_not_nest :
  forall (GetJSONPath : evalCtx -> string -> result Value)
         (SetJSONPath :
            evalCtx -> string -> Value -> Unstructured -> result Unstructured)
         (MatchLabels : Unstructured -> Unstructured -> result Value)
         (e : Expression) (ctx : evalCtx) (f n : nat) (v : Value),
    wellFormed e = true ->
    Evaluate GetJSONPath SetJSONPath MatchLabels f e ctx = Ok v ->
    Evaluate GetJSONPath SetJSONPath MatchLabels (S n + f)
      (nested (S n) e) ctx
    = Ok (VList match v with
                | VList xs => xs
                | _ => [v]
                end).
Proof.
  intros G S M e ctx f n v _ H.
  destruct (isList v) eqn:Ev.
  - destruct v; try discriminate Ev.
    apply Evaluate_nested_list. exact H.
  - erewrite Evaluate_nested_scalar; [|exact H|exact Ev].
    destruct v; try reflexivity. discriminate Ev.
Qed.

Lemma singleton_lists_do_not_nest_witness :
  wellFormed (ints [1; 2]%Z) = true
  /\ Evaluate subjectResolver keySetter noMatch 2 (ints [1; 2]%Z)
    (mkCtx VNil VNil) = Ok (VList [VInt 1; VInt 2])
  /\ Evaluate subjectResolver keySetter noMatch (3 + 2)
       (nested 3 (ints [1; 2]%Z)) (mkCtx VNil VNil)
     = Ok (VList [VInt 1; VInt 2]).
Proof.
  split; [reflexivity|]. split; [reflexivity|].
  exact (@singleton_lists_do_not_nest subjectResolver keySetter noMatch
           (ints [1; 2]%Z) (mkCtx VNil VNil) 2 2
           (VList [VInt 1; VInt 2]) eq_refl eq_refl).
Defined.

End PipelineSpec.

(** ** The controller *)
Module ControllerSpec.
Import Controller.

Local Open Scope string_scope.
Local Open Scope list_scope.

Section Runtime.

Variables Source Target JoinStage AggregateStage : Type.
Variables Object xerror Engine Manager : Type.
Variables RuntimeController RuntimeSource : Type.
Variable Target_eq_dec : forall a b : Target, {a = b} + {a <> b}.
Variable emptyTarget : Target.
Variable TargetKind : Target -> string.

Abbreviation Config' := (Config Source Target JoinStage AggregateStage).
Abbreviation State' := (State Object Engine Manager).
Abbreviation Controller' :=
  (Controller Source Target JoinStage AggregateStage Object xerror Engine
     Manager).

Variable GetGVK : Source -> Manager -> xerror + Cache.GroupVersionKind.
Variable NewTyped :
  string -> Manager -> Manager * (xerror + RuntimeController).
Variable GetSource : Manager -> Source -> xerror + RuntimeSource.
Variable Watch :
  RuntimeController -> RuntimeSource -> Manager -> Manager * option xerror.
Variable NewDefaultEngine :
  string -> list Cache.GroupVersionKind -> Engine.
Variable Add : Controller' -> Manager -> Manager * option xerror.
Variable NewObject : Cache.GroupVersionKind -> string -> string -> Object.
Variable ClientGet : Manager -> Cache.ObjectKey -> Object -> xerror + Object.
Variable PipelineEvaluate :
  Pipeline JoinStage AggregateStage -> Engine -> Delta Object ->
  Engine * (xerror + list (Delta Object)).
Variable TargetWrite :
  Target -> Delta Object -> Manager -> Manager * option xerror.

Abbreviation writeDeltas' :=
  (@writeDeltas Source Target JoinStage AggregateStage Object xerror Engine
     Manager TargetWrite).
Abbreviation fetched' := (fetched NewObject ClientGet).
Abbreviation writesOk' := (writesOk TargetWrite).
Abbreviation processRequest' :=
  (@processRequest Source Target JoinStage AggregateStage Object xerror
     Engine Manager NewObject ClientGet PipelineEvaluate TargetWrite).

(** The loop over the deltas either writes all of them, or stops at the
    first write that fails. *)
Lemma writeDeltas_spec (c : Config') (deltas : list (Delta Object)) :
  forall st : State',
    let r := writeDeltas' c deltas st in
    (snd r = None
     /\ writes (fst r) = writes st ++ deltas
     /\ writesOk' (ConfigTarget c) (manager st) deltas (manager (fst r)))
    \/ (exists pre d post mgr1 cause,
          deltas = pre ++ d :: post
          /\ writesOk' (ConfigTarget c) (manager st) pre mgr1
          /\ TargetWrite (ConfigTarget c) d mgr1
             = (manager (fst r), Some cause)
          /\ snd r = Some (Errorf "controller: cannot update target" cause)
          /\ writes (fst r) = writes st ++ pre ++ [d]).
Proof.
  induction deltas as [|d deltas IH]; intros st; simpl.
  - left. rewrite app_nil_r. repeat split. constructor.
  - destruct (TargetWrite (ConfigTarget c) d (manager st))
      as [mgr [cause|]] eqn:W; simpl.
    + right. exists [], d, deltas, (manager st), cause. simpl.
      repeat split; [constructor|exact W].
    + match goal with
      | |- context [writeDeltas _ c deltas ?s] =>
          specialize (IH s); set (st2 := s) in *
      end.
      simpl in IH.
      destruct IH as [(E & Hw & Hok)|(pre & d' & post & m1 & cause & IH)].
      * left. split; [exact E|]. split.
        -- rewrite Hw. simpl. now rewrite <- app_assoc.
        -- econstructor; [exact W|exact Hok].
      * destruct IH as (Ed & Hok & Hw & E & Hws).
        right. exists (d :: pre), d', post, m1, cause.
        split; [now rewrite Ed|].
        split; [econstructor; [exact W|exact Hok]|].
        split; [exact Hw|]. split; [exact E|].
        rewrite Hws. simpl. now rewrite <- app_assoc.
Qed.

(** C2, amended: when the pipeline yields [d1..dn], [processRequest]
    hands the deltas to [target.Write] in order, up to and including the
    first one whose write fails; it then returns that error, wrapped, and
    the deltas after it are not written.  When no write fails all of
    [d1..dn] are written in order and nil is returned. *)
Theorem processRequest_writes_until_first_failure :
  forall (c : Config') (req : Request) (st : State') (obj : Object)
         (eng : Engine) (deltas : list (Delta Object)),
    fetched' req st = inr obj ->
    PipelineEvaluate (ConfigPipeline c) (engine st)
      (mkDelta (EventType req) obj) = (eng, inr deltas) ->
    let r := processRequest' c req st in
    (snd r = None
     /\ writes (fst r) = writes st ++ deltas
     /\ writesOk' (ConfigTarget c) (manager st) deltas (manager (fst r)))
    \/ (exists pre d post mgr1 cause,
          deltas = pre ++ d :: post
          /\ writesOk' (ConfigTarget c) (manager st) pre mgr1
          /\ TargetWrite (ConfigTarget c) d mgr1
             = (manager (fst r), Some cause)
          /\ snd r = Some (Errorf "controller: cannot update target" cause)
          /\ writes (fst r) = writes st ++ pre ++ [d]).
Proof.
  intros c req st obj eng deltas Hf Hp r. subst r.
  unfold processRequest. fold (fetched' req st). rewrite Hf, Hp.
  exact (writeDeltas_spec c deltas
           (mkState (manager st) eng (writes st) (log st))).
Qed.

(** *** The loop of [Start] *)





(** *** The sanity check of [New] *)

Abbreviation New' :=
  (@New Source Target JoinStage AggregateStage Object xerror Engine Manager
     RuntimeController RuntimeSource Target_eq_dec emptyTarget TargetKind
     GetGVK NewTyped GetSource Watch NewDefaultEngine Add NewObject ClientGet
     PipelineEvaluate TargetWrite).

Abbreviation register' :=
  (@register Source Target JoinStage AggregateStage Object xerror Engine
     Manager RuntimeController RuntimeSource TargetKind GetGVK NewTyped
     GetSource Watch NewDefaultEngine Add).

(** C1: [New] fails with a configuration error, returns no controller and
    leaves the manager as it was (nothing is watched and the controller is
    not scheduled) when the sources are empty, when the target is the
    empty target, or when there are several sources and the pipeline has
    no join.  For every other configuration the three checks pass and
    [New] goes on to register the controller. *)
Theorem New_sanity_check :
  forall (name : string) (mgr : Manager) (config : Config')
         (opts : Options Source Target JoinStage AggregateStage Object
                   xerror Engine Manager),
    (Sources config = [] ->
     New' name mgr config opts = (mgr, inl (ErrNew xerror "no source")))
    /\ (Sources config <> [] -> ConfigTarget config = emptyTarget ->
        New' name mgr config opts = (mgr, inl (ErrNew xerror "no target")))
    /\ (1 < length (Sources config) -> ConfigTarget config <> emptyTarget ->
        Join (ConfigPipeline config) = None ->
        New' name mgr config opts
        = (mgr, inl (ErrNew xerror
             "controllers defined on multiple base resources must specify a Join in the pipeline")))
    /\ (Sources config = [] \/ ConfigTarget config = emptyTarget
        \/ (1 < length (Sources config)
            /\ Join (ConfigPipeline config) = None) ->
        exists msg, New' name mgr config opts = (mgr, inl (ErrNew xerror msg)))
    /\ (Sources config <> [] -> ConfigTarget config <> emptyTarget ->
        (1 < length (Sources config) ->
         Join (ConfigPipeline config) <> None) ->
        New' name mgr config opts
        = register' name mgr config
            match Processor opts with
            | Some p => p
            | None => processRequest'
            end).
Proof.
  intros name mgr config opts. unfold New.
  destruct (Sources config) as [|s srcs] eqn:Es; simpl.
  - split; [reflexivity|]. split; [intros H; now elim H|].
    split; [intros H; inversion H|].
    split; [intros _; eexists; reflexivity|].
    intros H; now elim H.
  - split; [discriminate|].
    destruct (Target_eq_dec (ConfigTarget config) emptyTarget) as [Et|Et].
    + split; [reflexivity|]. split; [intros _ H; contradiction|].
      split; [intros _; eexists; reflexivity|].
      intros _ H; contradiction.
    + split; [intros _ H; contradiction|].
      destruct srcs as [|s2 srcs]; simpl.
      * split; [intros H; simpl in H; lia|].
        split.
        -- intros [H|[H|[H _]]]; [discriminate H|contradiction|simpl in H; lia].
        -- reflexivity.
      * destruct (Join (ConfigPipeline config)) as [j|] eqn:Ej; simpl.
        -- split; [intros _ _ H; discriminate H|].
           split.
           ++ intros [H|[H|[_ H]]];
                [discriminate H|contradiction|discriminate H].
           ++ reflexivity.
        -- split; [reflexivity|].
           split; [intros _; eexists; reflexivity|].
           intros _ _ H. exfalso. apply H; [lia|reflexivity].
Qed.

End Runtime.

(** C2, as stated, fails: on the request for object 1 the pipeline yields
    the deltas of objects 1 and 2, the write of the first fails, and the
    second is never handed to [target.Write]. *)
Lemma processRequest_stops_at_failed_write :
  let r := Small.processRequest Small.config Small.request1 Small.state0 in
  Small.PipelineEvaluate (mkPipeline None None) 0 (mkDelta Added 1)
    = (1, inr [mkDelta Added 1; mkDelta Added 2])
  /\ writes (fst r) = [mkDelta Added 1]
  /\ ~ In (mkDelta Added 2) (writes (fst r))
  /\ snd r = Some (Errorf "controller: cannot update target" "conflict")
  /\ ~ @writesEveryDelta string string unit unit nat string nat (list nat)
         Small.NewObject Small.ClientGet Small.PipelineEvaluate
         Small.TargetWrite.
Proof.
  split; [reflexivity|]. split; [reflexivity|]. split.
  - intros [H|[]]. discriminate H.
  - split; [reflexivity|].
    intros H.
    specialize (H Small.config Small.request1 Small.state0 1 1
                  [mkDelta Added 1; mkDelta Added 2] eq_refl eq_refl).
    discriminate H.
Qed.

Lemma processRequest_writes_witness :
  fetched Small.NewObject Small.ClientGet Small.request1 Small.state0 = inr 1
  /\ Small.PipelineEvaluate (ConfigPipeline Small.config)
       (engine Small.state0) (mkDelta (EventType Small.request1) 1)
     = (1, inr [mkDelta Added 1; mkDelta Added 2])
  /\ (let r := Small.processRequest Small.config Small.request1
                 Small.state0 in
      (snd r = None
       /\ writes (fst r)
          = writes Small.state0 ++ [mkDelta Added 1; mkDelta Added 2]
       /\ writesOk Small.TargetWrite (ConfigTarget Small.config)
            (manager Small.state0) [mkDelta Added 1; mkDelta Added 2]
            (manager (fst r)))
      \/ (exists pre d post mgr1 cause,
            [mkDelta Added 1; mkDelta Added 2] = pre ++ d :: post
            /\ writesOk Small.TargetWrite (ConfigTarget Small.config)
                 (manager Small.state0) pre mgr1
            /\ Small.TargetWrite (ConfigTarget Small.config) d mgr1
               = (manager (fst r), Some cause)
            /\ snd r
               = Some (Errorf "controller: cannot update target" cause)
            /\ writes (fst r) = writes Small.state0 ++ pre ++ [d])).
Proof.
  split; [reflexivity|]. split; [reflexivity|].
  exact (@processRequest_writes_until_first_failure
           string string unit unit nat string nat (list nat)
           Small.NewObject Small.ClientGet Small.PipelineEvaluate
           Small.TargetWrite Small.config Small.request1 Small.state0 1 1
           [mkDelta Added 1; mkDelta Added 2] eq_refl eq_refl).
Defined.



(** *** More on [New], [Start] and [processRequest] *)

Section Lifecycle.

Variables Source Target JoinStage AggregateStage : Type.
Variables Object xerror Engine Manager : Type.
Variables RuntimeController RuntimeSource : Type.
Variable Target_eq_dec : forall a b : Target, {a = b} + {a <> b}.
Variable emptyTarget : Target.
Variable TargetKind : Target -> string.

Abbreviation Config' := (Config Source Target JoinStage AggregateStage).
Abbreviation State' := (State Object Engine Manager).
Abbreviation Controller' :=
  (Controller Source Target JoinStage AggregateStage Object xerror Engine
     Manager).

Variable GetGVK : Source -> Manager -> xerror + Cache.GroupVersionKind.
Variable NewTyped :
  string -> Manager -> Manager * (xerror + RuntimeController).
Variable GetSource : Manager -> Source -> xerror + RuntimeSource.
Variable Watch :
  RuntimeController -> RuntimeSource -> Manager -> Manager * option xerror.
Variable NewDefaultEngine :
  string -> list Cache.GroupVersionKind -> Engine.
Variable Add : Controller' -> Manager -> Manager * option xerror.
Variable NewObject : Cache.GroupVersionKind -> string -> string -> Object.
Variable ClientGet : Manager -> Cache.ObjectKey -> Object -> xerror + Object.
Variable PipelineEvaluate :
  Pipeline JoinStage AggregateStage -> Engine -> Delta Object ->
  Engine * (xerror + list (Delta Object)).
Variable TargetWrite :
  Target -> Delta Object -> Manager -> Manager * option xerror.

Abbreviation processRequestWith get :=
  (@processRequest Source Target JoinStage AggregateStage Object xerror
     Engine Manager NewObject get PipelineEvaluate TargetWrite).
Abbreviation processRequest' := (processRequestWith ClientGet).
Abbreviation New' :=
  (@New Source Target JoinStage AggregateStage Object xerror Engine Manager
     RuntimeController RuntimeSource Target_eq_dec emptyTarget TargetKind
     GetGVK NewTyped GetSource Watch NewDefaultEngine Add NewObject ClientGet
     PipelineEvaluate TargetWrite).
Abbreviation register' :=
  (@register Source Target JoinStage AggregateStage Object xerror Engine
     Manager RuntimeController RuntimeSource TargetKind GetGVK NewTyped
     GetSource Watch NewDefaultEngine Add).
Abbreviation watchSources' :=
  (@watchSources Source xerror Manager RuntimeController RuntimeSource
     GetGVK NewTyped GetSource Watch).

Lemma loop_requests (c : Controller') (reqs : list Request) :
  forall (rest : list event) (st : State'),
    loop c (map Receive reqs ++ rest) st
    = loop c rest (fold_left (handle c) reqs st).
Proof.
  induction reqs as [|req reqs IH]; intros rest st; [reflexivity|].
  cbn [map app loop fold_left]. unfold handle at 2.
  destruct (processor c (config c) req _) as [st2 [e|]]; apply IH.
Qed.

Lemma watchSources_views (name : string) (sources : list Source) :
  forall mgr acc mgr' views,
    watchSources' name sources mgr acc = (mgr', inr views) ->
    exists gvks,
      views = acc ++ gvks
      /\ Forall2 (fun s g => exists m, GetGVK s m = inr g) sources gvks.
Proof.
  induction sources as [|s sources IH]; intros mgr acc mgr' views H;
    simpl in H.
  - injection H as _ <-. exists [].
    split; [now rewrite app_nil_r|constructor].
  - destruct (GetGVK s mgr) as [cause|gvk] eqn:Eg; [discriminate H|].
    destruct (NewTyped name mgr) as [mgr1 [cause|ctrl]]; [discriminate H|].
    destruct (GetSource mgr1 s) as [cause|src]; [discriminate H|].
    destruct (Watch ctrl src mgr1) as [mgr2 [cause|]]; [discriminate H|].
    destruct (IH _ _ _ _ H) as [gvks [-> F]].
    exists (gvk :: gvks). split; [now rewrite <- app_assoc|].
    constructor; [now exists mgr|exact F].
Qed.

(** X17: what holds of a controller [New] returns.  The configuration
    passed the three checks; the controller has the given name and
    configuration, the kind of the target, a request channel of
    [WatcherBufferSize] and the processor of the options, or
    [processRequest] when the options give none; and its engine was made
    for the kind of the target and the kinds of all the sources, in the
    order of the sources. *)
Theorem New_postcondition :
  forall (name : string) (mgr mgr' : Manager) (config0 : Config')
         (opts : Options Source Target JoinStage AggregateStage Object
                   xerror Engine Manager) (c : Controller'),
    New' name mgr config0 opts = (mgr', inr c) ->
    Sources config0 <> []
    /\ ConfigTarget config0 <> emptyTarget
    /\ (1 < length (Sources config0) ->
        Join (ConfigPipeline config0) <> None)
    /\ Controller.name c = name
    /\ config c = config0
    /\ kind c = TargetKind (ConfigTarget config0)
    /\ watcher c = WatcherBufferSize
    /\ processor c = match Processor opts with
                     | Some p => p
                     | None => processRequest'
                     end
    /\ exists gvks,
         initialEngine c
           = NewDefaultEngine (TargetKind (ConfigTarget config0)) gvks
         /\ Forall2 (fun s g => exists m, GetGVK s m = inr g)
              (Sources config0) gvks.
Proof.
  intros name mgr mgr' config0 opts c H. unfold New in H.
  destruct (Sources config0) as [|s srcs] eqn:Es; [discriminate H|].
  cbn [length Nat.eqb] in H.
  destruct (Target_eq_dec (ConfigTarget config0) emptyTarget) as [Et|Et];
    [discriminate H|].
  split; [discriminate|]. split; [exact Et|].
  assert (Hj : 1 < length (s :: srcs) ->
               Join (ConfigPipeline config0) <> None).
  { intros Hlen Hnone. rewrite Hnone in H.
    destruct srcs; [simpl in Hlen; lia|]. discriminate H. }
  split; [exact Hj|].
  assert (Hr : register' name mgr config0
                 match Processor opts with
                 | Some p => p
                 | None => processRequest'
                 end = (mgr', inr c)).
  { destruct srcs as [|s2 srcs]; [exact H|].
    destruct (Join (ConfigPipeline config0)); [exact H|].
    exfalso. apply Hj; [simpl; lia|reflexivity]. }
  clear H. unfold register in Hr. rewrite Es in Hr.
  destruct (watchSources' name (s :: srcs) mgr [])
    as [mgr1 [err|views]] eqn:Ew; [discriminate Hr|].
  destruct (Add _ mgr1) as [mgr2 [cause|]]; [discriminate Hr|].
  injection Hr as _ <-. cbn.
  repeat (split; [reflexivity|]).
  destruct (watchSources_views _ _ _ _ Ew) as [gvks [-> F]].
  exists gvks. split; [reflexivity|exact F].
Qed.

(** X18: [Start] serves the requests in the order it receives them, each
    once, the state one request leaves being the state the next one
    starts from.  With nothing more to receive it waits; when the
    context is done it logs that and returns nil, and whatever would
    arrive afterwards is not processed. *)
Theorem Start_serves_requests_in_order :
  forall (c : Controller') (reqs : list Request) (later : list event)
         (st : State'),
    let served := fold_left (handle c) reqs (logInfo 0 "starting" "" st) in
    Start c (map Receive reqs) st = (served, Blocked xerror)
    /\ Start c (map Receive reqs ++ Done :: later) st
       = (logInfo 2 "controller terminating" "" served, Returned None).
Proof.
  intros c reqs later st served. unfold Start. split.
  - rewrite <- (app_nil_r (map Receive reqs)). now rewrite loop_requests.
  - now rewrite loop_requests.
Qed.

Lemma loop_without_fetch (c1 c2 : Controller')
  (get2 : Manager -> Cache.ObjectKey -> Object -> xerror + Object)
  (events : list event) :
  processor c1 = processRequest' ->
  processor c2 = processRequestWith get2 ->
  config c1 = config c2 ->
  Forall fetchesNothing events ->
  forall st : State', loop c1 events st = loop c2 events st.
Proof.
  intros H1 H2 Hc. induction 1 as [|[req|] events Hf _ IH]; intros st.
  - reflexivity.
  - cbn [loop]. rewrite H1, H2, <- Hc. unfold processRequest.
    cbn in Hf. rewrite Hf.
    destruct (PipelineEvaluate _ _ _) as [eng [cause|deltas]].
    + apply IH.
    + destruct (writeDeltas _ _ _ _) as [st2 [e|]]; apply IH.
  - reflexivity.
Qed.

(** X19: only Added, Updated and Replaced events read the cluster.  On a
    schedule without them (Deleted and Sync events) a run of [Start] with
    the default processor does not depend on the client: with any other
    client, even one that finds no object, it ends in the same state. *)
Theorem Start_reads_the_cluster_only_for_upserts :
  forall (c1 c2 : Controller')
         (get2 : Manager -> Cache.ObjectKey -> Object -> xerror + Object)
         (events : list event) (st : State'),
    processor c1 = processRequest' ->
    processor c2 = processRequestWith get2 ->
    config c1 = config c2 ->
    Forall fetchesNothing events ->
    Start c1 events st = Start c2 events st.
Proof.
  intros c1 c2 get2 events st H1 H2 Hc Hf. unfold Start.
  apply loop_without_fetch with (get2 := get2); assumption.
Qed.

(** X20: a request for an object that is gone does not end the loop of
    [Start] either.  When the client fails on an Added, Updated or
    Replaced request, [processRequest] returns that error, wrapped,
    before the pipeline is evaluated and with nothing written; [Start]
    logs it and goes on with the events that follow. *)
Theorem Start_survives_missing_object :
  forall (c : Controller') (req : Request) (st : State') (cause : xerror)
         (rest : list event),
    processor c = processRequest' ->
    fetches (EventType req) = true ->
    ClientGet (manager st) (Cache.mkKey (Namespace req) (Name req))
      (NewObject (GVK req) (Namespace req) (Name req)) = inl cause ->
    let st1 := logInfo 2 "processing request" "" (logInfo 0 "starting" "" st) in
    processRequest' (config c) req st1
      = (st1, Some (Errorf
                      "controller: object disappeared for Add/Update event"
                      cause))
    /\ engine st1 = engine st
    /\ writes st1 = writes st
    /\ Start c (Receive req :: rest) st
       = loop c rest
           (logInfo 0 "error processing watch event"
              "controller: object disappeared for Add/Update event" st1).
Proof.
  intros c req st cause rest Hp Hf Hg st1.
  assert (E : processRequest' (config c) req st1
              = (st1, Some (Errorf
                   "controller: object disappeared for Add/Update event"
                   cause))).
  { unfold processRequest. rewrite Hf.
    change (manager st1) with (manager st). now rewrite Hg. }
  split; [exact E|]. split; [reflexivity|]. split; [reflexivity|].
  unfold Start. fold st1. cbn [loop]. fold st1. rewrite Hp, E. reflexivity.
Qed.

End Lifecycle.

Lemma New_postcondition_witness :
  Small.New "c" [] Small.config (mkOptions None)
  = ([], inr Small.controller)
  /\ Sources Small.config <> []
  /\ ConfigTarget Small.config <> Small.emptyTarget
  /\ kind Small.controller = Small.TargetKind (ConfigTarget Small.config).
Proof.
  split; [reflexivity|].
  pose (T := @New_postcondition
               string string unit unit nat string nat (list nat)
               string string string_dec Small.emptyTarget Small.TargetKind
               Small.GetGVK Small.NewTyped Small.GetSource Small.Watch
               Small.NewDefaultEngine Small.Add Small.NewObject
               Small.ClientGet Small.PipelineEvaluate Small.TargetWrite
               "c" [] [] Small.config (mkOptions None) Small.controller
               eq_refl).
  exact (conj (proj1 T)
           (conj (proj1 (proj2 T))
              (proj1 (proj2 (proj2 (proj2 (proj2 (proj2 T)))))))).
Defined.

Lemma Start_reads_the_cluster_witness :
  processor Small.controller = Small.processRequest
  /\ config Small.controller = config Small.controllerGone
  /\ Forall fetchesNothing [Receive Small.requestDeleted; Done]
  /\ Start Small.controller [Receive Small.requestDeleted; Done]
       Small.state0
     = Start Small.controllerGone [Receive Small.requestDeleted; Done]
         Small.state0.
Proof.
  assert (F : Forall fetchesNothing [Receive Small.requestDeleted; Done])
    by (repeat constructor).
  split; [reflexivity|]. split; [reflexivity|]. split; [exact F|].
  exact (@Start_reads_the_cluster_only_for_upserts
           string string unit unit nat string nat (list nat)
           Small.NewObject Small.ClientGet Small.PipelineEvaluate
           Small.TargetWrite Small.controller Small.controllerGone
           Small.ClientGone [Receive Small.requestDeleted; Done]
           Small.state0 eq_refl eq_refl eq_refl F).
Defined.

Lemma Start_survives_missing_object_witness :
  processor Small.controllerGone
  = @processRequest string string unit unit nat string nat (list nat)
      Small.NewObject Small.ClientGone Small.PipelineEvaluate
      Small.TargetWrite
  /\ fetches (EventType Small.request1) = true
  /\ Start Small.controllerGone [Receive Small.request1; Done] Small.state0
     = loop Small.controllerGone [Done]
         (logInfo 0 "error processing watch event"
            "controller: object disappeared for Add/Update event"
            (logInfo 2 "processing request" ""
               (logInfo 0 "starting" "" Small.state0))).
Proof.
  split; [reflexivity|]. split; [reflexivity|].
  exact (proj2 (proj2 (proj2
    (@Start_survives_missing_object
       string string unit unit nat string nat (list nat)
       Small.NewObject Small.ClientGone Small.PipelineEvaluate
       Small.TargetWrite Small.controllerGone Small.request1 Small.state0
       "not found" [Done] eq_refl eq_refl eq_refl)))).
Defined.

End ControllerSpec.
